(** * Call orchestration of the order-confirmation voice agent

    A shallow embedding of [src/app/src/components/OrderCallAgent.tsx]:
    the React state of the [OrderCallAgent] component, the browser's timer
    table and speech queue it talks to, the handlers of the component as
    state-passing functions, and the events (operator clicks as the JSX
    offers them, timer firings, speech callbacks) as a step function. *)

From Stdlib Require Import ZArith List String Ascii DecimalString Bool Lia
  Sorted.
Import ListNotations.
Open Scope string_scope.
Open Scope list_scope.
Open Scope Z_scope.

Set Implicit Arguments.

(** ** Data model *)

Inductive Speaker := agent | customer | system.

(** [timestamp] is the clock reading (in ms) at which the entry was built;
    the source stores its ISO rendering.  [awaitingResponse] is optional in
    the source: [None] is the absent field. *)
Record ConversationEntry := mkEntry {
  speaker : Speaker;
  message : string;
  timestamp : Z;
  awaitingResponse : option bool
}.

Inductive CallState :=
  idle | dialing | speaking | awaiting_response | resolved | muted.

Inductive CallOutcome := confirmed | rescheduled | cancelled | needs_support.

Inductive OrderStatus :=
  st_pending | st_confirmed | st_requires_followup | st_cancelled.

Record Item := mkItem { name : string; quantity : Z }.

(** Modelled from the spec: the [Order] type of [@/data/orders], which is
    imported by the component but is not among the sources.  The fields are
    those of section 3 of the specification, which are also the ones the
    component reads. *)
Record Order := mkOrder {
  id : string;
  customerName : string;
  phoneNumber : string;
  address : string;
  notes : option string;
  items : list Item;
  total : Z;
  paymentMethod : string;
  deliverySlot : string;
  status : OrderStatus
}.

Inductive ResponseType := confirm | reschedule | cancel | query.

Definition RESCHEDULE_OPTIONS : list string :=
  [ "Today, 7PM - 9PM"; "Tomorrow, 9AM - 12PM";
    "Tomorrow, 2PM - 5PM"; "Saturday, 11AM - 1PM" ].

(** The [options] argument of [scheduleAgentLine]; both fields are optional. *)
Record LineOptions := mkOptions {
  optAwaitingResponse : option bool;
  optMarkResolved : option bool
}.

(** JavaScript truthiness of an optional boolean. *)
Definition truthy (o : option bool) : bool :=
  match o with Some true => true | _ => false end.

(** The order updaters the component builds are object spreads that
    overwrite [status] and, for a reschedule, [deliverySlot]. *)
Record OrderPatch := mkPatch {
  patchStatus : OrderStatus;
  patchDeliverySlot : option string
}.

Definition applyPatch (p : OrderPatch) (o : Order) : Order :=
  {| id := id o; customerName := customerName o;
     phoneNumber := phoneNumber o; address := address o; notes := notes o;
     items := items o; total := total o; paymentMethod := paymentMethod o;
     deliverySlot := match patchDeliverySlot p with
                     | Some slot => slot
                     | None => deliverySlot o
                     end;
     status := patchStatus p |}.

(** The two kinds of closure handed to [window.setTimeout]: the body of
    [scheduleAgentLine], and a call of [completeCall].  The latter closes
    over the [selectedOrder] of the render that created it. *)
Inductive TimerAction :=
| AgentLine (text : string) (options : LineOptions)
| CompleteCall (captured : option Order) (outcome : CallOutcome)
               (patch : OrderPatch).

Record Timer := mkTimer {
  timerId : Z;
  due : Z;
  action : TimerAction
}.

(** The component's React state and ref, followed by the part of the browser
    it drives: the timer table, the speech queue and the clock. *)
Record State := mkState {
  orders : list Order;
  selectedOrderId : option string;
  conversation : list ConversationEntry;
  callState : CallState;
  callOutcome : option CallOutcome;
  rescheduleSlot : string;
  agentMuted : bool;
  timeoutsRef : list Z;
  pendingTimers : list Timer;
  nextTimeoutId : Z;
  activeUtterance : option LineOptions;
  interrupted : list LineOptions;
  clock : Z
}.

(** What the component takes from outside: [Intl.NumberFormat],
    [String.prototype.toLowerCase], the rendering of a number in a template
    literal, whether [window.speechSynthesis] exists, and the seed orders of
    [@/data/orders]. *)
Record Platform := mkPlatform {
  formatINR : Z -> string;
  toLowerCase : string -> string;
  numberToString : Z -> string;
  isBrowser : bool;
  initialOrders : list Order
}.

(** ** State setters

    Each setter rebuilds the record with one field replaced. *)

Definition setOrders (v : list Order) (s : State) : State :=
  let '(mkState os sid cv cs co rs am tr pt nid au it ck) := s in
  mkState v sid cv cs co rs am tr pt nid au it ck.

Definition setSelectedOrderId (v : option string) (s : State) : State :=
  let '(mkState os sid cv cs co rs am tr pt nid au it ck) := s in
  mkState os v cv cs co rs am tr pt nid au it ck.

Definition setConversation (v : list ConversationEntry) (s : State) : State :=
  let '(mkState os sid cv cs co rs am tr pt nid au it ck) := s in
  mkState os sid v cs co rs am tr pt nid au it ck.

Definition setCallState (v : CallState) (s : State) : State :=
  let '(mkState os sid cv cs co rs am tr pt nid au it ck) := s in
  mkState os sid cv v co rs am tr pt nid au it ck.

Definition setCallOutcome (v : option CallOutcome) (s : State) : State :=
  let '(mkState os sid cv cs co rs am tr pt nid au it ck) := s in
  mkState os sid cv cs v rs am tr pt nid au it ck.

Definition setRescheduleSlot (v : string) (s : State) : State :=
  let '(mkState os sid cv cs co rs am tr pt nid au it ck) := s in
  mkState os sid cv cs co v am tr pt nid au it ck.

Definition setAgentMuted (v : bool) (s : State) : State :=
  let '(mkState os sid cv cs co rs am tr pt nid au it ck) := s in
  mkState os sid cv cs co rs v tr pt nid au it ck.

Definition setTimeoutsRef (v : list Z) (s : State) : State :=
  let '(mkState os sid cv cs co rs am tr pt nid au it ck) := s in
  mkState os sid cv cs co rs am v pt nid au it ck.

Definition setPendingTimers (v : list Timer) (s : State) : State :=
  let '(mkState os sid cv cs co rs am tr pt nid au it ck) := s in
  mkState os sid cv cs co rs am tr v nid au it ck.

Definition setNextTimeoutId (v : Z) (s : State) : State :=
  let '(mkState os sid cv cs co rs am tr pt nid au it ck) := s in
  mkState os sid cv cs co rs am tr pt v au it ck.

Definition setActiveUtterance (v : option LineOptions) (s : State) : State :=
  let '(mkState os sid cv cs co rs am tr pt nid au it ck) := s in
  mkState os sid cv cs co rs am tr pt nid v it ck.

Definition setInterrupted (v : list LineOptions) (s : State) : State :=
  let '(mkState os sid cv cs co rs am tr pt nid au it ck) := s in
  mkState os sid cv cs co rs am tr pt nid au v ck.

Definition setClock (v : Z) (s : State) : State :=
  let '(mkState os sid cv cs co rs am tr pt nid au it ck) := s in
  mkState os sid cv cs co rs am tr pt nid au it v.

(** Statements of a handler run one after the other on the state. *)
Notation "s |> f" := (f s) (at level 45, left associativity, only parsing).

(** ** The component *)

Section Component.

Variable P : Platform.

(** [orders.find((order) => order.id === selectedOrderId) ?? null] *)
Definition selectedOrder (s : State) : option Order :=
  match selectedOrderId s with
  | None => None
  | Some sid => find (fun o => String.eqb (id o) sid) (orders s)
  end.

(** *** Browser: timers *)

(** [window.setTimeout(cb, delay)]: a fresh id, due [delay] ms from now. *)
Definition windowSetTimeout (cb : TimerAction) (delay : Z) (s : State)
  : Z * State :=
  let tid := nextTimeoutId s in
  (tid, s |> setPendingTimers (pendingTimers s ++ [mkTimer tid (clock s + delay) cb])
          |> setNextTimeoutId (tid + 1)).

Definition memZ (x : Z) (l : list Z) : bool := existsb (Z.eqb x) l.

(** [ids.forEach((timeoutId) => window.clearTimeout(timeoutId))] *)
Definition clearTimeouts (ids : list Z) (s : State) : State :=
  s |> setPendingTimers
         (filter (fun t => negb (memZ (timerId t) ids)) (pendingTimers s)).

(** The timer that runs next: the least due time and, among equal due
    times, the one registered first.  Returns it with the remaining table. *)
Fixpoint pickNext (l : list Timer) : option (Timer * list Timer) :=
  match l with
  | [] => None
  | t :: r =>
      match pickNext r with
      | None => Some (t, [])
      | Some (m, r') =>
          if due t <=? due m then Some (t, r) else Some (m, t :: r')
      end
  end.

(** *** Browser: speech synthesis

    An utterance that was started holds the [onEnd] closure of its line until
    the browser raises its [end] or [error] event (both handlers call
    [onEnd]).  [speechSynthesis.cancel()] interrupts the utterance being
    spoken; the browser then raises the event of the interrupted utterance. *)
Definition speechCancel (s : State) : State :=
  match activeUtterance s with
  | None => s
  | Some u => s |> setInterrupted (interrupted s ++ [u])
                |> setActiveUtterance None
  end.

(** The [onEnd] closure that [scheduleAgentLine] hands to [speak]. *)
Definition onEnd (options : LineOptions) (s : State) : State :=
  if truthy (optMarkResolved options) then s |> setCallState resolved
  else if truthy (optAwaitingResponse options)
       then s |> setCallState awaiting_response
       else s |> setCallState speaking.

(** [speak(text, onEnd)] of [useSpeechSynthesis] *)
Definition speak (options : LineOptions) (s : State) : State :=
  if negb (isBrowser P) then onEnd options s
  else s |> speechCancel |> setActiveUtterance (Some options).

(** [stop()] of [useSpeechSynthesis] *)
Definition stop (s : State) : State :=
  if negb (isBrowser P) then s else speechCancel s.

(** *** Handlers *)

Definition resetCall (s : State) : State :=
  s |> clearTimeouts (timeoutsRef s)
    |> setTimeoutsRef []
    |> stop
    |> setConversation []
    |> setCallState idle
    |> setCallOutcome None
    |> setRescheduleSlot "".

Definition addMessage (entry : ConversationEntry) (s : State) : State :=
  s |> setConversation (conversation s ++ [entry]).

(** [window.setTimeout(...)] followed by [timeoutsRef.current.push(timeoutId)] *)
Definition scheduleTimeout (cb : TimerAction) (delay : Z) (s : State) : State :=
  let '(tid, s1) := windowSetTimeout cb delay s in
  s1 |> setTimeoutsRef (timeoutsRef s1 ++ [tid]).

Definition scheduleAgentLine (text : string) (delay : Z)
    (options : LineOptions) (s : State) : State :=
  scheduleTimeout (AgentLine text options) delay s.

(** The closure of [scheduleAgentLine], run when its timer fires. *)
Definition agentLineCallback (text : string) (options : LineOptions)
    (s : State) : State :=
  s |> addMessage (mkEntry agent text (clock s) (optAwaitingResponse options))
    |> setCallState speaking
    |> speak options.

Definition itemText (item : Item) : string :=
  String.concat ""
    [ numberToString P (quantity item); " "; name item;
      if 1 <? quantity item then "s" else "" ].

Definition dialText (o : Order) : string :=
  String.concat "" [ "Dialing "; phoneNumber o; "…" ].

Definition introText (o : Order) : string :=
  String.concat ""
    [ "Hello "; customerName o;
      ", this is the Flipkart order validation desk. I'm calling to confirm your order ";
      id o; " for "; formatINR P (total o); "." ].

Definition itemsText (o : Order) : string :=
  String.concat ""
    [ "It includes "; String.concat ", " (map itemText (items o));
      " with "; toLowerCase P (paymentMethod o);
      ". Is everything correct so we can schedule delivery ";
      deliverySlot o; "?" ].

Definition introDelay : Z := 1200.

Definition startCall (s : State) : State :=
  match selectedOrder s with
  | None => s
  | Some o =>
      s |> resetCall
        |> setCallState dialing
        |> (fun s => addMessage (mkEntry system (dialText o) (clock s) None) s)
        |> scheduleAgentLine (introText o) introDelay
             (mkOptions (Some false) None)
        |> scheduleAgentLine (itemsText o) (introDelay + 2200)
             (mkOptions (Some true) None)
  end.

(** [completeCall], with the [selectedOrder] its closure holds. *)
Definition completeCall (sel : option Order) (outcome : CallOutcome)
    (orderUpdater : Order -> Order) (s : State) : State :=
  match sel with
  | None => s
  | Some so =>
      s |> setOrders
             (map (fun o => if String.eqb (id o) (id so)
                            then orderUpdater o else o) (orders s))
        |> setCallOutcome (Some outcome)
        |> setCallState resolved
  end.

Definition customerLines (type : ResponseType) : string :=
  match type with
  | confirm => "Yes, please go ahead."
  | reschedule => "Could we deliver in a different slot?"
  | cancel => "I want to cancel this order."
  | query => "Can you tell me the payment details once more?"
  end.

Definition queryText (o : Order) : string :=
  String.concat ""
    [ "This order is "; formatINR P (total o); " with ";
      toLowerCase P (paymentMethod o);
      ". Would you like to proceed with the same plan?" ].

Definition handleCustomerResponse (type : ResponseType) (s : State) : State :=
  match selectedOrder s with
  | None => s
  | Some o =>
      let s := addMessage (mkEntry customer (customerLines type) (clock s) None) s in
      let s :=
        match type with
        | confirm =>
            s |> scheduleAgentLine
                   "Perfect, I will confirm the order and send you the delivery updates on SMS right away."
                   400 (mkOptions (Some false) None)
              |> scheduleAgentLine
                   "Thank you for shopping with Flipkart. Have a great day!"
                   2000 (mkOptions (Some false) (Some true))
              |> scheduleTimeout
                   (CompleteCall (Some o) confirmed (mkPatch st_confirmed None))
                   2500
        | _ => s
        end in
      let s :=
        match type with
        | reschedule =>
            s |> setCallState awaiting_response
              |> setCallOutcome (Some rescheduled)
              |> setRescheduleSlot ""
              |> scheduleAgentLine
                   "Sure, I can help with that. I have a few delivery slots available, please pick the one that works best for you."
                   500 (mkOptions (Some true) None)
        | _ => s
        end in
      let s :=
        match type with
        | cancel =>
            s |> scheduleAgentLine
                   "I understand. I will cancel the order right away and send a confirmation SMS. Thank you for your time."
                   700 (mkOptions (Some false) (Some true))
              |> scheduleTimeout
                   (CompleteCall (Some o) cancelled (mkPatch st_cancelled None))
                   1400
        | _ => s
        end in
      match type with
      | query =>
          s |> scheduleAgentLine (queryText o) 700 (mkOptions (Some true) None)
      | _ => s
      end
  end.

Definition slotCustomerText (slot : string) : string :=
  String.concat "" [ "Let's move it to "; slot; "." ].

Definition slotAgentText (slot : string) : string :=
  String.concat ""
    [ "Done, I have rescheduled your delivery to "; slot;
      ". You will receive a confirmation SMS shortly." ].

Definition handleRescheduleSelection (slot : string) (s : State) : State :=
  match selectedOrder s with
  | None => s
  | Some o =>
      s |> setRescheduleSlot slot
        |> (fun s => addMessage
                       (mkEntry customer (slotCustomerText slot) (clock s) None) s)
        |> scheduleAgentLine (slotAgentText slot) 500
             (mkOptions (Some false) None)
        |> scheduleAgentLine "Thanks for confirming. Have a great day!" 2000
             (mkOptions (Some false) (Some true))
        |> scheduleTimeout
             (CompleteCall (Some o) rescheduled
                (mkPatch st_confirmed (Some slot)))
             2300
  end.

Definition escalationText : string :=
  "I'll escalate this to a senior support specialist who will call you back within the next hour.".

Definition escalateToSupport (s : State) : State :=
  match selectedOrder s with
  | None => s
  | Some o =>
      s |> addMessage (mkEntry agent escalationText (clock s) None)
        |> completeCall (Some o) needs_support
             (applyPatch (mkPatch st_requires_followup None))
  end.

Definition toggleMute (s : State) : State :=
  let next := negb (agentMuted s) in
  (if next
   then s |> stop |> setCallState muted
   else s |> setCallState
               (match conversation s with
                | [] => dialing
                | _ :: _ => awaiting_response
                end))
  |> setAgentMuted next.

(** The effect on [agentMuted], run after the render that changed it. *)
Definition agentMutedEffect (s : State) : State :=
  if negb (agentMuted s) then s else stop s.

Definition callInFlight (s : State) : bool :=
  match callState s with
  | idle | resolved => false
  | _ => true
  end.

(** [onClick] of an order button of the list. *)
Definition selectOrder (oid : string) (s : State) : State :=
  if callInFlight s then s
  else s |> setSelectedOrderId (Some oid) |> resetCall.

(** *** Timer and speech callbacks *)

Definition runTimer (a : TimerAction) (s : State) : State :=
  match a with
  | AgentLine text options => agentLineCallback text options s
  | CompleteCall sel outcome patch =>
      completeCall sel outcome (applyPatch patch) s
  end.

(** The next timer leaves the table and its callback runs. *)
Definition fireTimer (s : State) : State :=
  match pickNext (pendingTimers s) with
  | None => s
  | Some (t, rest) => s |> setPendingTimers rest |> runTimer (action t)
  end.

(** The utterance being spoken ends. *)
Definition speechEnd (s : State) : State :=
  match activeUtterance s with
  | None => s
  | Some u => s |> setActiveUtterance None |> onEnd u
  end.

(** The event of the oldest interrupted utterance arrives. *)
Definition speechInterrupted (s : State) : State :=
  match interrupted s with
  | [] => s
  | u :: rest => s |> setInterrupted rest |> onEnd u
  end.

(** ** Events *)

Inductive Event :=
| SelectOrder (oid : string)
| StartCall
| ToggleMute
| EndCall
| Escalate
| Respond (type : ResponseType)
| PickSlot (slot : string)
| Elapse (ms : Z)
| Fire
| SpeechEnd
| SpeechInterrupted.

(** What an event does, whether or not the page offers it. *)
Definition handle (e : Event) (s : State) : State :=
  match e with
  | SelectOrder oid => selectOrder oid s
  | StartCall => startCall s
  | ToggleMute => agentMutedEffect (toggleMute s)
  | EndCall => resetCall s
  | Escalate => escalateToSupport s
  | Respond type => handleCustomerResponse type s
  | PickSlot slot => handleRescheduleSelection slot s
  | Elapse ms => s |> setClock (clock s + ms)
  | Fire => fireTimer s
  | SpeechEnd => speechEnd s
  | SpeechInterrupted => speechInterrupted s
  end.

Definition isSome {A} (o : option A) : bool :=
  match o with Some _ => true | None => false end.

Definition callStateEqb (a b : CallState) : bool :=
  match a, b with
  | idle, idle | dialing, dialing | speaking, speaking
  | awaiting_response, awaiting_response | resolved, resolved
  | muted, muted => true
  | _, _ => false
  end.

Definition isRescheduled (o : option CallOutcome) : bool :=
  match o with Some rescheduled => true | _ => false end.

Definition memString (x : string) (l : list string) : bool :=
  existsb (String.eqb x) l.

(** When an event can happen.  The operator's events are gated as the JSX
    renders their buttons; a timer fires once it is due, in the order of
    [pickNext]; the utterance being spoken ends only after the events of the
    utterances interrupted before it were raised. *)
Definition enabled (e : Event) (s : State) : bool :=
  match e with
  | SelectOrder oid => memString oid (map id (orders s))
  | StartCall => isSome (selectedOrder s) && negb (callInFlight s)
  | ToggleMute => isSome (selectedOrder s) && callInFlight s
  | EndCall => isSome (selectedOrder s) && callInFlight s
  | Escalate => isSome (selectedOrder s)
  | Respond _ =>
      isSome (selectedOrder s) && callStateEqb (callState s) awaiting_response
  | PickSlot slot =>
      isSome (selectedOrder s) && isRescheduled (callOutcome s)
      && String.eqb (rescheduleSlot s) "" && memString slot RESCHEDULE_OPTIONS
  | Elapse ms => 0 <=? ms
  | Fire =>
      match pickNext (pendingTimers s) with
      | Some (t, _) => due t <=? clock s
      | None => false
      end
  | SpeechEnd =>
      isSome (activeUtterance s)
      && match interrupted s with [] => true | _ => false end
  | SpeechInterrupted =>
      match interrupted s with [] => false | _ => true end
  end.

Definition step (e : Event) (s : State) : option State :=
  if enabled e s then Some (handle e s) else None.

Fixpoint run (es : list Event) (s : State) : option State :=
  match es with
  | [] => Some s
  | e :: es' =>
      match step e s with
      | Some s' => run es' s'
      | None => None
      end
  end.

(** Events of the browser, as opposed to clicks of the operator. *)
Definition isEnvEvent (e : Event) : bool :=
  match e with
  | Elapse _ | Fire | SpeechEnd | SpeechInterrupted => true
  | _ => false
  end.

(** The state of the first render. *)
Definition init : State :=
  {| orders := initialOrders P;
     selectedOrderId :=
       match initialOrders P with
       | o :: _ => Some (id o)
       | [] => None
       end;
     conversation := [];
     callState := idle;
     callOutcome := None;
     rescheduleSlot := "";
     agentMuted := false;
     timeoutsRef := [];
     pendingTimers := [];
     nextTimeoutId := 1;
     activeUtterance := None;
     interrupted := [];
     clock := 0 |}.

Definition reachable (s : State) : Prop :=
  exists es, run es init = Some s.

End Component.

(** ** A concrete platform

    Stand-ins for the parts of the platform that are outside the sources,
    used to run the component on concrete inputs. *)

Definition lowerAscii (c : ascii) : ascii :=
  let n := nat_of_ascii c in
  if andb (Nat.leb 65 n) (Nat.leb n 90) then ascii_of_nat (n + 32) else c.

Fixpoint lowerString (s : string) : string :=
  match s with
  | EmptyString => EmptyString
  | String c r => String (lowerAscii c) (lowerString r)
  end.

Definition decimal (n : Z) : string := NilZero.string_of_int (Z.to_int n).

Definition demoOrder1 : Order :=
  {| id := "OD-1001"; customerName := "Asha Rao";
     phoneNumber := "+91 90000 00001"; address := "12 MG Road, Bengaluru";
     notes := None;
     items := [ mkItem "Phone case" 2; mkItem "Charger" 1 ];
     total := 1499; paymentMethod := "Cash on Delivery";
     deliverySlot := "Tomorrow, 9AM - 12PM"; status := st_pending |}.

Definition demoOrder2 : Order :=
  {| id := "OD-1002"; customerName := "Vikram Shah";
     phoneNumber := "+91 90000 00002"; address := "4 Park Street, Kolkata";
     notes := Some "Call before delivery";
     items := [ mkItem "Headphones" 1 ];
     total := 5999; paymentMethod := "UPI";
     deliverySlot := "Today, 7PM - 9PM"; status := st_pending |}.

Definition demoPlatform (browser : bool) (seed : list Order) : Platform :=
  {| formatINR := fun n => String.append "INR " (decimal n);
     toLowerCase := lowerString;
     numberToString := decimal;
     isBrowser := browser;
     initialOrders := seed |}.

(** No speech synthesis, two seed orders. *)
Definition silent : Platform := demoPlatform false [demoOrder1; demoOrder2].

(** Speech synthesis available, two seed orders. *)
Definition voiced : Platform := demoPlatform true [demoOrder1; demoOrder2].

(** No seed orders, hence no selected order. *)
Definition emptyShop : Platform := demoPlatform false [].

(** The opening script has been delivered and nothing is pending. *)
Definition openingDone : list Event :=
  [StartCall; Elapse 1200; Fire; Elapse 2200; Fire].

(** The state [es] leads to from the first render, or the first render
    itself when [es] cannot happen. *)
Definition after (P : Platform) (es : list Event) : State :=
  match run P es (init P) with
  | Some s => s
  | None => init P
  end.

(** What the script has produced so far: everything except the state
    indicator, the mute flag and the speech queue. *)
Definition scriptView (s : State) :=
  (orders s, selectedOrderId s, conversation s, callOutcome s,
   rescheduleSlot s, (timeoutsRef s, pendingTimers s, nextTimeoutId s, clock s)).

Definition isToggle (e : Event) : bool :=
  match e with ToggleMute => true | _ => false end.


(** A transcript line without its timestamp. *)
Definition content (e : ConversationEntry) : Speaker * string * option bool :=
  (speaker e, message e, awaitingResponse e).

(** Every pending timer is recorded in [timeoutsRef]. *)
Definition tracked (s : State) : Prop :=
  forall t, In t (pendingTimers s) -> memZ (timerId t) (timeoutsRef s) = true.

(** Nothing is waiting in the browser: no timer and no speech callback. *)
Definition quiescent (s : State) : Prop :=
  pendingTimers s = [] /\ activeUtterance s = None /\ interrupted s = [].

(** Without speech synthesis the speech queue stays empty. *)
Definition speechless (P : Platform) (s : State) : Prop :=
  isBrowser P = false -> activeUtterance s = None /\ interrupted s = [].

(** What holds of every state the component can be in. *)
Definition wf (P : Platform) (s : State) : Prop :=
  tracked s /\ speechless P s /\ (callState s = muted -> agentMuted s = true).

(** [s'] has the orders of [s], up to their mutable fields, and the same
    selection. *)
Definition keeps (s s' : State) : Prop :=
  selectedOrderId s' = selectedOrderId s /\
  map id (orders s') = map id (orders s).

Definition introOptions : LineOptions := mkOptions (Some false) None.
Definition itemsOptions : LineOptions := mkOptions (Some true) None.

(** The three lines of the opening script for order [o], without their
    timestamps. *)
Definition scriptLines (P : Platform) (o : Order)
  : list (Speaker * string * option bool) :=
  [ (system, dialText o, None);
    (agent, introText P o, Some false);
    (agent, itemsText P o, Some true) ].

(** Where the opening script stands: both lines pending, the second line
    pending, or both delivered and the last one spoken or being spoken. *)
Definition scriptPhase (P : Platform) (o : Order) (s : State) : Prop :=
  speechless P s /\
  ((exists i1 d1 i2 d2,
      pendingTimers s =
        [ mkTimer i1 d1 (AgentLine (introText P o) introOptions);
          mkTimer i2 d2 (AgentLine (itemsText P o) itemsOptions) ] /\
      d1 <= d2 /\
      map content (conversation s) = firstn 1 (scriptLines P o))
   \/
   (exists i2 d2,
      pendingTimers s =
        [ mkTimer i2 d2 (AgentLine (itemsText P o) itemsOptions) ] /\
      map content (conversation s) = firstn 2 (scriptLines P o))
   \/
   (pendingTimers s = [] /\
    map content (conversation s) = scriptLines P o /\
    (activeUtterance s = Some itemsOptions \/
     (activeUtterance s = None /\ interrupted s = [] /\
      callState s = awaiting_response)))).

(** [sub] occurs in [s]. *)
Definition occursIn (sub s : string) : Prop :=
  exists pre post : string, s = (pre ++ sub ++ post)%string.


(** The browser can run the callbacks pending in [s] to the end. *)
Definition completes (P : Platform) (s : State) : Prop :=
  exists es s', forallb isEnvEvent es = true /\ run P es s = Some s' /\
                quiescent s'.

(** Every execution of browser events from [s] that empties the timer table
    passes through a state where [Q] holds. *)
Definition eventually (P : Platform) (s : State) (Q : State -> Prop) : Prop :=
  forall es s', forallb isEnvEvent es = true -> run P es s = Some s' ->
                pendingTimers s' = [] ->
  exists pre post sm, es = pre ++ post /\ run P pre s = Some sm /\ Q sm.

(** The selected order of [s] is order [oid], confirmed for delivery in
    [slot], and the call is resolved as rescheduled. *)
Definition rescheduledTo (oid slot : string) (s : State) : Prop :=
  exists o', selectedOrder s = Some o' /\ id o' = oid /\
             status o' = st_confirmed /\ deliverySlot o' = slot /\
             callOutcome s = Some rescheduled /\ callState s = resolved.

Unset Implicit Arguments.

(** ** Definitions for the further properties *)

(** The order in which the timers of a table fire when nothing is added:
    [pickNext], again and again. *)
Fixpoint fireOrderFuel (n : nat) (l : list Timer) : list Timer :=
  match n with
  | O => []
  | S n' =>
      match pickNext l with
      | None => []
      | Some (t, rest) => t :: fireOrderFuel n' rest
      end
  end.

Definition fireOrder (l : list Timer) : list Timer :=
  fireOrderFuel (List.length l) l.

(** The state [onEnd] sets. *)
Definition onEndState (options : LineOptions) : CallState :=
  if truthy (optMarkResolved options) then resolved
  else if truthy (optAwaitingResponse options) then awaiting_response
  else speaking.

(** What a timer callback does to the transcript (without timestamps), the
    orders and the outcome. *)
Definition settleTimer
    (v : list (Speaker * string * option bool) * list Order * option CallOutcome)
    (t : Timer)
  : list (Speaker * string * option bool) * list Order * option CallOutcome :=
  let '(lines, os, out) := v in
  match action t with
  | AgentLine text options =>
      (lines ++ [(agent, text, optAwaitingResponse options)], os, out)
  | CompleteCall (Some c) outcome patch =>
      (lines,
       map (fun o => if String.eqb (id o) (id c) then applyPatch patch o else o) os,
       Some outcome)
  | CompleteCall None _ _ => v
  end.

(** The state indicator once a timer callback and the speech it starts are
    over. *)
Definition settleState (v : CallState) (t : Timer) : CallState :=
  match action t with
  | AgentLine _ options => onEndState options
  | CompleteCall (Some _) _ _ => resolved
  | CompleteCall None _ _ => v
  end.

(** Every call completion in [ts] comes after a line that marks the call
    resolved, or after no line at all; [last] is the line before [ts]. *)
Fixpoint determinate (last : option LineOptions) (ts : list Timer) : bool :=
  match ts with
  | [] => true
  | t :: r =>
      match action t with
      | AgentLine _ options => determinate (Some options) r
      | CompleteCall (Some _) _ _ =>
          match last with
          | None => true
          | Some o => callStateEqb (onEndState o) resolved
          end && determinate last r
      | CompleteCall None _ _ => determinate last r
      end
  end.

Fixpoint lastOption {A : Type} (l : list A) : option A :=
  match l with
  | [] => None
  | [x] => Some x
  | _ :: r => lastOption r
  end.

(** The speech callback that will arrive last, if any is outstanding. *)
Definition lastCallback (s : State) : option LineOptions :=
  match activeUtterance s with
  | Some u => Some u
  | None => lastOption (interrupted s)
  end.

(** The transcript without timestamps, the orders and the outcome. *)
Definition ledger (s : State)
  : list (Speaker * string * option bool) * list Order * option CallOutcome :=
  (map content (conversation s), orders s, callOutcome s).

(** [n] rounds of the query response, each followed by the browser running
    the pending callbacks to the end. *)
Inductive queryRounds (P : Platform) : nat -> State -> State -> Prop :=
| queryRounds_O (s : State) : queryRounds P O s s
| queryRounds_S (n : nat) (s s1 s2 : State) (es : list Event) :
    forallb isEnvEvent es = true ->
    run P es (handleCustomerResponse P query s) = Some s1 ->
    quiescent s1 ->
    queryRounds P n s1 s2 ->
    queryRounds P (S n) s s2.

(** The selected order of [s] is order [oid] with status [st], and the call
    is resolved with outcome [out]. *)
Definition resolvedAs (oid : string) (out : CallOutcome) (st : OrderStatus)
    (s : State) : Prop :=
  exists o', selectedOrder s = Some o' /\ id o' = oid /\ status o' = st /\
             callOutcome s = Some out /\ callState s = resolved.

(** The fields of an order that no updater of the component writes. *)
Definition identity (o : Order) :=
  (id o, customerName o, phoneNumber o, address o, notes o, items o,
   total o, paymentMethod o).

(** The status each outcome is completed with. *)
Definition statusFor (out : CallOutcome) : OrderStatus :=
  match out with
  | confirmed => st_confirmed
  | rescheduled => st_confirmed
  | cancelled => st_cancelled
  | needs_support => st_requires_followup
  end.

(** A completion writes the status of its outcome and, if it moves the
    delivery, a slot of the menu. *)
Definition completionOk (out : CallOutcome) (p : OrderPatch) : Prop :=
  patchStatus p = statusFor out /\
  match patchDeliverySlot p with
  | None => True
  | Some slot => In slot RESCHEDULE_OPTIONS
  end.

(** A pending completion is for the order [sid] selects. *)
Definition timerOk (sid : option string) (t : Timer) : Prop :=
  match action t with
  | AgentLine _ _ => True
  | CompleteCall c out p =>
      exists o, c = Some o /\ sid = Some (id o) /\ completionOk out p
  end.

(** Every pending completion is for the selected order. *)
Definition timersOk (s : State) : Prop :=
  forall t, In t (pendingTimers s) -> timerOk (selectedOrderId s) t.

(** The delivery slot of [o] is the one of the seed order [o0] or a slot of
    the menu. *)
Definition slotOk (o0 o : Order) : Prop :=
  deliverySlot o = deliverySlot o0 \/ In (deliverySlot o) RESCHEDULE_OPTIONS.

(** The selection names an order of the registry, or the registry is
    empty. *)
Definition selectionOk (s : State) : Prop :=
  match selectedOrderId s with
  | Some k => In k (map id (orders s))
  | None => orders s = []
  end.

(** The platform with speech synthesis switched on or off. *)
Definition withSpeech (b : bool) (P : Platform) : Platform :=
  {| formatINR := formatINR P; toLowerCase := toLowerCase P;
     numberToString := numberToString P; isBrowser := b;
     initialOrders := initialOrders P |}.

(** The chips of an order button: [order.items.slice(0, 3)], each rendered
    as quantity, a multiplication sign and the name. *)
Definition itemChips (P : Platform) (o : Order) : list string :=
  map (fun item => String.concat ""
                     [numberToString P (quantity item); "× "; name item])
      (firstn 3 (items o)).

(** The count of the "+n more" chip, rendered when the order has more than
    three items. *)
Definition moreBadge (o : Order) : option nat :=
  if Nat.ltb 3 (List.length (items o))
  then Some (List.length (items o) - 3)%nat
  else None.

(** The cleanups of the two mount effects, run when the component
    unmounts: [speechSynthesis.cancel()] of [useSpeechSynthesis], then the
    clearing of every timer of [timeoutsRef]. *)
Definition unmountCleanup (P : Platform) (s : State) : State :=
  (if isBrowser P then speechCancel s else s)
  |> (fun s => clearTimeouts (timeoutsRef s) s)
  |> setTimeoutsRef [].

(** The opening script with speech synthesis: the second line interrupts
    the first, then both speech callbacks arrive. *)
Definition voicedOpening : list Event :=
  openingDone ++ [SpeechInterrupted; SpeechEnd].

(** The browser events after a confirm with speech synthesis: the thank-you
    line interrupts the closing line, and its speech ends after the call
    was completed. *)
Definition confirmRun : list Event :=
  [Elapse 400; Fire; Elapse 1600; Fire; SpeechInterrupted;
   Elapse 500; Fire; SpeechEnd].

Definition cancelRun : list Event := [Elapse 700; Fire; Elapse 700; Fire].

Definition queryRun : list Event := [Elapse 700; Fire].

Definition offerRun : list Event := [Elapse 500; Fire].

Definition slotRun : list Event :=
  [Elapse 500; Fire; Elapse 1500; Fire; Elapse 300; Fire].

(** The reschedule response and its offer, after the opening script. *)
Definition offerDone : list Event :=
  openingDone ++ Respond reschedule :: offerRun.









(** ** Lists, timers and runs *)

Lemma pickNext_none (l : list Timer) : pickNext l = None -> l = [].
Proof.
  destruct l as [|t r]; simpl; [reflexivity|].
  destruct (pickNext r) as [[m r']|]; [|discriminate].
  destruct (due t <=? due m); discriminate.
Qed.

Lemma pickNext_In (l : list Timer) :
  forall m r, pickNext l = Some (m, r) ->
  forall x, In x l <-> x = m \/ In x r.
Proof.
  induction l as [|t l IH]; simpl; intros m r H x; [discriminate|].
  destruct (pickNext l) as [[m' r']|] eqn:E.
  - specialize (IH m' r' eq_refl x).
    destruct (due t <=? due m'); inversion H; subst; simpl.
    + intuition.
    + rewrite IH. intuition.
  - apply pickNext_none in E. subst l. inversion H; subst. simpl. intuition.
Qed.

Lemma pickNext_length (l : list Timer) :
  forall m r, pickNext l = Some (m, r) -> List.length l = S (List.length r).
Proof.
  induction l as [|t l IH]; simpl; intros m r H; [discriminate|].
  destruct (pickNext l) as [[m' r']|] eqn:E.
  - specialize (IH m' r' eq_refl).
    destruct (due t <=? due m'); inversion H; subst; simpl; congruence.
  - apply pickNext_none in E. subst l. inversion H; subst. reflexivity.
Qed.

Lemma pickNext_least (l : list Timer) :
  forall m r, pickNext l = Some (m, r) ->
  forall x, In x l -> due m <= due x.
Proof.
  induction l as [|t l IH]; simpl; intros m r H x Hx; [discriminate|].
  destruct (pickNext l) as [[m' r']|] eqn:E.
  - specialize (IH m' r' eq_refl).
    destruct (due t <=? due m') eqn:C; inversion H; subst.
    + apply Z.leb_le in C. destruct Hx as [->|Hx]; [lia|].
      specialize (IH x Hx). lia.
    + apply Z.leb_gt in C. destruct Hx as [->|Hx]; [lia|]. auto.
  - apply pickNext_none in E. subst l. inversion H; subst.
    destruct Hx as [->|[]]. lia.
Qed.

Lemma run_app (P : Platform) (es1 es2 : list Event) :
  forall s, run P (es1 ++ es2) s =
            match run P es1 s with
            | Some s1 => run P es2 s1
            | None => None
            end.
Proof.
  induction es1 as [|e es1 IH]; simpl; intros s; [reflexivity|].
  destruct (step P e s); [apply IH|reflexivity].
Qed.

Lemma step_inv (P : Platform) (e : Event) (s s' : State) :
  step P e s = Some s' -> enabled e s = true /\ s' = handle P e s.
Proof.
  unfold step. destruct (enabled e s); [|discriminate].
  intros H; inversion H; auto.
Qed.

(** Induction along an execution. *)
Lemma run_invariant (P : Platform) (Inv : State -> Prop) :
  (forall e s, Inv s -> enabled e s = true -> Inv (handle P e s)) ->
  forall es s s', Inv s -> run P es s = Some s' -> Inv s'.
Proof.
  intros Hstep. induction es as [|e es IH]; simpl; intros s s' Hs H.
  - inversion H; subst; assumption.
  - destruct (step P e s) as [s1|] eqn:E; [|discriminate].
    apply step_inv in E as [En ->]. eapply IH; [|exact H]. auto.
Qed.

Lemma run_env_invariant (P : Platform) (Inv : State -> Prop) :
  (forall e s, isEnvEvent e = true -> Inv s -> enabled e s = true ->
               Inv (handle P e s)) ->
  forall es s s', forallb isEnvEvent es = true ->
                  Inv s -> run P es s = Some s' -> Inv s'.
Proof.
  intros Hstep. induction es as [|e es IH]; simpl; intros s s' Hes Hs H.
  - inversion H; subst; assumption.
  - apply andb_prop in Hes as [He Hes].
    destruct (step P e s) as [s1|] eqn:E; [|discriminate].
    apply step_inv in E as [En ->]. eapply IH; [exact Hes| |exact H]. auto.
Qed.

(** ** Proof automation for the handlers

    A handler is first unfolded down to its guards, which are split; the
    setters are evaluated only once no guard is left undecided. *)

Ltac fields_red :=
  cbn [orders selectedOrderId conversation callState callOutcome
    rescheduleSlot agentMuted timeoutsRef pendingTimers nextTimeoutId
    activeUtterance interrupted clock].

Ltac guards_red :=
  cbv beta iota zeta delta [handle selectOrder startCall agentMutedEffect
    toggleMute escalateToSupport handleCustomerResponse
    handleRescheduleSelection fireTimer speechEnd speechInterrupted runTimer
    callInFlight selectedOrder enabled isEnvEvent isSome
    negb andb orb];
  fields_red.

Ltac full_red :=
  cbv beta iota zeta delta [handle selectOrder startCall agentMutedEffect
    toggleMute escalateToSupport handleCustomerResponse
    handleRescheduleSelection fireTimer speechEnd speechInterrupted runTimer
    agentLineCallback completeCall resetCall scheduleAgentLine
    scheduleTimeout windowSetTimeout clearTimeouts addMessage speak stop
    onEnd speechCancel callInFlight selectedOrder enabled isEnvEvent
    isSome scriptView
    setOrders setSelectedOrderId setConversation setCallState
    setCallOutcome setRescheduleSlot setAgentMuted setTimeoutsRef
    setPendingTimers setNextTimeoutId setActiveUtterance setInterrupted
    setClock orders selectedOrderId conversation callState callOutcome
    rescheduleSlot agentMuted timeoutsRef pendingTimers nextTimeoutId
    activeUtterance interrupted clock
    negb andb orb truthy optAwaitingResponse optMarkResolved action fst snd].

Ltac split_guard :=
  match goal with
  | |- context [match ?x with _ => _ end] =>
      lazymatch x with
      | context [match _ with _ => _ end] => fail
      | _ => first [ is_var x; destruct x | destruct x eqn:? ]
      end
  end.

Ltac handler_cases P :=
  guards_red; repeat (split_guard; guards_red);
  destruct (isBrowser P) eqn:?;
  full_red; repeat (split_guard; full_red).

(** ** Invariants of the reachable states *)

Lemma memZ_app (x : Z) (l1 l2 : list Z) :
  memZ x (l1 ++ l2) = memZ x l1 || memZ x l2.
Proof. unfold memZ. apply existsb_app. Qed.

Lemma memZ_last (x : Z) (l : list Z) : memZ x (l ++ [x]) = true.
Proof.
  rewrite memZ_app. simpl. rewrite Z.eqb_refl. apply orb_true_r.
Qed.

Lemma filter_tracked_nil (l : list Timer) (ids : list Z) :
  (forall t, In t l -> memZ (timerId t) ids = true) ->
  filter (fun t => negb (memZ (timerId t) ids)) l = [].
Proof.
  induction l as [|t l IH]; simpl; intros H; [reflexivity|].
  rewrite (H t (or_introl eq_refl)). simpl. apply IH. intros; apply H; auto.
Qed.

Section Invariants.

Variable P : Platform.

Lemma resetCall_fields (s : State) :
  tracked s ->
  conversation (resetCall P s) = [] /\ callState (resetCall P s) = idle /\
  callOutcome (resetCall P s) = None /\ rescheduleSlot (resetCall P s) = "" /\
  pendingTimers (resetCall P s) = [] /\ timeoutsRef (resetCall P s) = [] /\
  orders (resetCall P s) = orders s /\
  selectedOrderId (resetCall P s) = selectedOrderId s /\
  agentMuted (resetCall P s) = agentMuted s /\
  clock (resetCall P s) = clock s /\
  nextTimeoutId (resetCall P s) = nextTimeoutId s.
Proof.
  intros T. apply filter_tracked_nil in T. revert T.
  destruct s as [os sid cv cs co rs am tr pt nid au it ck].
  destruct (isBrowser P) eqn:B; full_red; rewrite ?B; full_red;
    [destruct au; full_red|]; intros ->; repeat split.
Qed.

Lemma scheduleTimeout_tracked (cb : TimerAction) (d : Z) (s : State) :
  tracked s -> tracked (scheduleTimeout cb d s).
Proof.
  unfold tracked. destruct s as [os sid cv cs co rs am tr pt nid au it ck].
  full_red. intros T t Ht. apply in_app_or in Ht as [Ht|[<-|[]]].
  - rewrite memZ_app, (T t Ht). reflexivity.
  - simpl. apply memZ_last.
Qed.

Ltac tracked_leaf T t Ht :=
  first
    [ solve [ apply filter_In in Ht; destruct Ht as [Ht Hn];
              rewrite (T t Ht) in Hn; discriminate Hn ]
    | solve [ destruct Ht as [<-|[]]; cbn [timerId];
              rewrite ?memZ_app; cbn [memZ existsb]; rewrite Z.eqb_refl;
              rewrite ?orb_true_r; reflexivity ]
    | solve [ rewrite ?memZ_app; rewrite (T t Ht); reflexivity ]
    | solve [ match goal with
              | E : pickNext _ = Some _ |- _ =>
                  rewrite ?memZ_app;
                  rewrite (T t (proj2 (pickNext_In _ _ _ E t) (or_intror Ht)));
                  reflexivity
              end ]
    | solve [ destruct Ht ] ].

Ltac tracked_solve :=
  let T := fresh "T" in
  let t := fresh "t" in
  let Ht := fresh "Ht" in
  intros T t Ht;
  repeat (apply in_app_or in Ht; destruct Ht as [Ht|Ht]);
  tracked_leaf T t Ht.

Lemma tracked_step (e : Event) (s : State) :
  tracked s -> tracked (handle P e s).
Proof.
  unfold tracked. destruct s as [os sid cv cs co rs am tr pt nid au it ck].
  destruct e; handler_cases P; try (intros T; exact T); try tracked_solve.
Qed.

Lemma speechless_step (e : Event) (s : State) :
  speechless P s -> speechless P (handle P e s).
Proof.
  unfold speechless. destruct s as [os sid cv cs co rs am tr pt nid au it ck].
  destruct e; handler_cases P; intros H B; try discriminate B;
    destruct (H eq_refl) as [Ha Hi]; try discriminate; auto.
Qed.

Lemma muted_step (e : Event) (s : State) :
  (callState s = muted -> agentMuted s = true) ->
  callState (handle P e s) = muted -> agentMuted (handle P e s) = true.
Proof.
  destruct s as [os sid cv cs co rs am tr pt nid au it ck].
  destruct e; handler_cases P; try congruence; auto.
Qed.

Lemma wf_init : wf P (init P).
Proof.
  split; [|split].
  - intros t [].
  - intros _. split; reflexivity.
  - simpl. discriminate.
Qed.

Lemma wf_step (e : Event) (s : State) : wf P s -> wf P (handle P e s).
Proof.
  intros (T & S & M). split; [|split].
  - apply tracked_step, T.
  - apply speechless_step, S.
  - apply muted_step, M.
Qed.

Lemma run_wf (es : list Event) (s s' : State) :
  wf P s -> run P es s = Some s' -> wf P s'.
Proof.
  apply run_invariant. intros e s0 H _. apply wf_step, H.
Qed.

Lemma reachable_wf (s : State) : reachable P s -> wf P s.
Proof. intros [es H]. exact (run_wf es _ _ wf_init H). Qed.

End Invariants.

(** ** Orders and browser events *)

Lemma map_id_patch (k : string) (p : OrderPatch) (l : list Order) :
  map id (map (fun o => if String.eqb (id o) k then applyPatch p o else o) l)
  = map id l.
Proof.
  induction l as [|o l IH]; simpl; [reflexivity|].
  rewrite IH. destruct (String.eqb (id o) k); reflexivity.
Qed.

Lemma find_patch (k : string) (p : OrderPatch) (l : list Order) (x : Order) :
  find (fun o => String.eqb (id o) k) l = Some x ->
  find (fun o => String.eqb (id o) k)
       (map (fun o => if String.eqb (id o) k then applyPatch p o else o) l)
  = Some (applyPatch p x).
Proof.
  induction l as [|o l IH]; simpl; [discriminate|].
  destruct (String.eqb (id o) k) eqn:E; simpl.
  - rewrite E. intros H; inversion H; reflexivity.
  - rewrite E. exact IH.
Qed.

Lemma find_same_ids (k : string) (l l' : list Order) (x : Order) :
  map id l' = map id l ->
  find (fun o => String.eqb (id o) k) l = Some x ->
  exists x', find (fun o => String.eqb (id o) k) l' = Some x'.
Proof.
  revert l'. induction l as [|o l IH]; intros [|o' l'] M; simpl in *;
    try discriminate.
  inversion M as [[Ho Hl]]. rewrite Ho.
  destruct (String.eqb (id o) k); [eauto|]. apply (IH l' Hl).
Qed.

Lemma find_id (k : string) (l : list Order) (x : Order) :
  find (fun o => String.eqb (id o) k) l = Some x -> id x = k.
Proof.
  intros H. apply find_some in H as [_ H]. apply String.eqb_eq, H.
Qed.

Section Env.
Variable P : Platform.

Lemma env_pending (e : Event) (s : State) :
  isEnvEvent e = true ->
  forall t, In t (pendingTimers (handle P e s)) -> In t (pendingTimers s).
Proof.
  destruct s as [os sid cv cs co rs am tr pt nid au it ck].
  destruct e; try discriminate; intros _; handler_cases P; auto;
    intros x Hx;
    match goal with
    | E : pickNext _ = Some _ |- _ => apply (pickNext_In _ _ _ E); auto
    end.
Qed.

Lemma env_keeps (e : Event) (s : State) :
  isEnvEvent e = true ->
  selectedOrderId (handle P e s) = selectedOrderId s /\
  map id (orders (handle P e s)) = map id (orders s).
Proof.
  destruct s as [os sid cv cs co rs am tr pt nid au it ck].
  destruct e; try discriminate; intros _; handler_cases P; auto;
    split; try reflexivity; apply map_id_patch.
Qed.

(** A pending timer either is the one an event fires or is still pending
    after the event. *)
Lemma fire_or_stay (e : Event) (s : State) (t : Timer) :
  isEnvEvent e = true -> In t (pendingTimers s) ->
  (e = Fire /\ exists rest, pickNext (pendingTimers s) = Some (t, rest)) \/
  In t (pendingTimers (handle P e s)).
Proof.
  destruct s as [os sid cv cs co rs am tr pt nid au it ck].
  destruct e; try discriminate; intros _; handler_cases P; auto;
    intros Ht;
    match goal with
    | E : pickNext _ = Some _ |- _ =>
        apply (pickNext_In _ _ _ E) in Ht as [->|Ht]; [left; eauto|right; auto]
    | E : pickNext _ = None |- _ =>
        apply pickNext_none in E; subst; destruct Ht
    end.
Qed.

Lemma outcome_step (e : Event) (s : State) :
  callOutcome (handle P e s) = callOutcome s \/
  callOutcome (handle P e s) = None \/
  callState (handle P e s) = resolved \/
  (e = Respond reschedule /\
   callOutcome (handle P e s) = Some rescheduled /\
   callState (handle P e s) = awaiting_response).
Proof.
  destruct s as [os sid cv cs co rs am tr pt nid au it ck].
  destruct e; handler_cases P; auto.
  all: right; right; right; auto.
Qed.

Lemma env_quiet (e : Event) (s : State) :
  isEnvEvent e = true -> pendingTimers s = [] ->
  pendingTimers (handle P e s) = [] /\
  conversation (handle P e s) = conversation s /\
  callOutcome (handle P e s) = callOutcome s /\
  orders (handle P e s) = orders s.
Proof.
  destruct s as [os sid cv cs co rs am tr pt nid au it ck].
  destruct e; try discriminate; intros _; fields_red; intros ->;
    handler_cases P; auto; discriminate.
Qed.

Lemma env_quiescent (e : Event) (s : State) :
  isEnvEvent e = true -> quiescent s -> enabled e s = true ->
  quiescent (handle P e s) /\ callState (handle P e s) = callState s.
Proof.
  unfold quiescent.
  destruct s as [os sid cv cs co rs am tr pt nid au it ck].
  destruct e; try discriminate; intros _; fields_red;
    intros (-> & -> & ->); simpl; intros En; try discriminate; auto.
Qed.

End Env.

(** ** Executions of browser events *)

Section Runs.
Variable P : Platform.

Lemma keeps_refl (s : State) : keeps s s.
Proof. split; reflexivity. Qed.

Lemma keeps_trans (s1 s2 s3 : State) : keeps s1 s2 -> keeps s2 s3 -> keeps s1 s3.
Proof. intros [A B] [C D]. split; congruence. Qed.

Lemma keeps_selected (s s' : State) (o : Order) :
  keeps s s' -> selectedOrder s = Some o ->
  exists o', selectedOrder s' = Some o' /\ id o' = id o.
Proof.
  intros [A B]. unfold selectedOrder. rewrite A.
  destruct (selectedOrderId s) as [k|]; [|discriminate].
  intros H. destruct (find_same_ids k _ _ o B H) as [x Hx].
  exists x. split; [exact Hx|].
  apply find_id in H. apply find_id in Hx. congruence.
Qed.

Lemma env_run_keeps (es : list Event) (s s' : State) :
  forallb isEnvEvent es = true -> run P es s = Some s' -> keeps s s'.
Proof.
  intros Hes H.
  refine (@run_env_invariant P (fun x => keeps s x) _ es s s' Hes (keeps_refl s) H).
  intros e x He K _. eapply keeps_trans; [exact K|].
  apply env_keeps, He.
Qed.

Lemma env_run_quiet (es : list Event) (s s' : State) :
  forallb isEnvEvent es = true -> pendingTimers s = [] ->
  run P es s = Some s' ->
  pendingTimers s' = [] /\ conversation s' = conversation s /\
  callOutcome s' = callOutcome s /\ orders s' = orders s.
Proof.
  intros Hes Hp H.
  refine (@run_env_invariant P
            (fun x => pendingTimers x = [] /\ conversation x = conversation s /\
                      callOutcome x = callOutcome s /\ orders x = orders s)
            _ es s s' Hes _ H); [|auto].
  intros e x He (A & B & C & D) _.
  destruct (env_quiet P e x He A) as (A' & B' & C' & D').
  repeat split; congruence.
Qed.

Lemma env_run_quiescent (es : list Event) (s s' : State) :
  forallb isEnvEvent es = true -> quiescent s ->
  run P es s = Some s' -> quiescent s' /\ callState s' = callState s.
Proof.
  intros Hes Hq H.
  refine (@run_env_invariant P
            (fun x => quiescent x /\ callState x = callState s)
            _ es s s' Hes _ H); [|auto].
  intros e x He [Q C] En.
  destruct (env_quiescent P e x He Q En) as [Q' C']. split; congruence.
Qed.

Lemma fireTimer_pick (s : State) (t : Timer) (rest : list Timer) :
  pickNext (pendingTimers s) = Some (t, rest) ->
  handle P Fire s = runTimer P (action t) (setPendingTimers rest s).
Proof. intros E. simpl. unfold fireTimer. rewrite E. reflexivity. Qed.

(** Every pending timer has fired by the time the timer table is empty. *)
Lemma timer_eventually_fires (es : list Event) :
  forall (s s' : State) (t : Timer),
  forallb isEnvEvent es = true -> run P es s = Some s' ->
  pendingTimers s' = [] -> In t (pendingTimers s) ->
  exists es1 es2 sb rest,
    es = es1 ++ Fire :: es2 /\ forallb isEnvEvent es1 = true /\
    run P es1 s = Some sb /\
    pickNext (pendingTimers sb) = Some (t, rest) /\
    run P (es1 ++ [Fire]) s =
      Some (runTimer P (action t) (setPendingTimers rest sb)).
Proof.
  induction es as [|e es IH]; simpl; intros s s' t Hes H Hp Ht.
  - inversion H; subst. rewrite Hp in Ht. destruct Ht.
  - apply andb_prop in Hes as [He Hes].
    destruct (step P e s) as [s1|] eqn:E; [|discriminate].
    pose proof E as E0. apply step_inv in E as [En ->].
    destruct (fire_or_stay P e s t He Ht) as [[-> [rest Hr]]|Hin].
    + exists [], es, s, rest. simpl. rewrite E0.
      rewrite <- (fireTimer_pick s t rest Hr). repeat split; auto.
    + destruct (IH _ _ t Hes H Hp Hin) as (es1 & es2 & sb & rest & A & B & C & D & F).
      exists (e :: es1), es2, sb, rest. simpl. rewrite E0, He.
      subst es. repeat split; auto.
Qed.

Lemma completeCall_selected (s : State) (o x : Order) (out : CallOutcome)
    (p : OrderPatch) :
  selectedOrder s = Some x -> id o = id x ->
  selectedOrder (completeCall (Some o) out (applyPatch p) s)
    = Some (applyPatch p x) /\
  callOutcome (completeCall (Some o) out (applyPatch p) s) = Some out /\
  callState (completeCall (Some o) out (applyPatch p) s) = resolved /\
  conversation (completeCall (Some o) out (applyPatch p) s) = conversation s.
Proof.
  destruct s as [os sid cv cs co rs am tr pt nid au it ck].
  unfold selectedOrder, completeCall. full_red.
  destruct sid as [k|]; [|discriminate]. intros H Hid.
  pose proof (find_id _ _ _ H) as Hk. rewrite Hid, Hk.
  rewrite (find_patch k p os x H). auto.
Qed.

Lemma runTimer_pending (a : TimerAction) (s : State) :
  pendingTimers (runTimer P a s) = pendingTimers s /\
  clock (runTimer P a s) = clock s.
Proof.
  destruct s as [os sid cv cs co rs am tr pt nid au it ck].
  destruct a as [text options|sel out p]; [|destruct sel];
    destruct (isBrowser P) eqn:B;
    cbv beta iota zeta delta [runTimer]; full_red; rewrite ?B;
    repeat (split_guard; full_red); auto.
Qed.

Lemma flush_speech (n : nat) :
  forall s, List.length (interrupted s) = n ->
  exists es s', forallb isEnvEvent es = true /\ run P es s = Some s' /\
                pendingTimers s' = pendingTimers s /\
                activeUtterance s' = None /\ interrupted s' = [].
Proof.
  induction n as [|n IH]; intros s Hn.
  - destruct s as [os sid cv cs co rs am tr pt nid au it ck].
    simpl in Hn. destruct it; [|discriminate].
    destruct au as [u|].
    + eexists [SpeechEnd], _. split; [reflexivity|]. split; [reflexivity|].
      destruct u as [[[|]|] [[|]|]]; auto.
    + exists [], (mkState os sid cv cs co rs am tr pt nid None [] ck). auto.
  - destruct s as [os sid cv cs co rs am tr pt nid au it ck].
    simpl in Hn. destruct it as [|u it]; [discriminate|].
    destruct (IH (speechInterrupted
                    (mkState os sid cv cs co rs am tr pt nid au (u :: it) ck)))
      as (es & s' & A & B & C & D & E).
    + destruct u as [[[|]|] [[|]|]]; simpl in *; congruence.
    + exists (SpeechInterrupted :: es), s'. split; [exact A|].
      split; [exact B|]. split; [|auto].
      rewrite C. destruct u as [[[|]|] [[|]|]]; reflexivity.
Qed.

Lemma pickNext_some (l : list Timer) :
  l <> [] -> exists t rest, pickNext l = Some (t, rest).
Proof.
  destruct (pickNext l) as [[t rest]|] eqn:E; [eauto|].
  apply pickNext_none in E. congruence.
Qed.

(** The browser can always run the pending callbacks to the end. *)
Lemma drain_exists (n : nat) :
  forall s, List.length (pendingTimers s) = n ->
  exists es s', forallb isEnvEvent es = true /\ run P es s = Some s' /\
                quiescent s'.
Proof.
  induction n as [|n IH]; intros s Hn.
  - destruct (flush_speech _ s eq_refl) as (es & s' & A & B & C & D & E).
    exists es, s'. repeat split; auto.
    rewrite C. destruct (pendingTimers s); [reflexivity|discriminate].
  - destruct (pickNext_some (pendingTimers s)) as (t & rest & E).
    { destruct (pendingTimers s); [discriminate|congruence]. }
    set (d := Z.max 0 (due t - clock s)).
    set (s1 := setClock (clock s + d) s).
    assert (E1 : pickNext (pendingTimers s1) = Some (t, rest)).
    { subst s1. destruct s; exact E. }
    assert (C1 : clock s1 = clock s + d) by (subst s1; destruct s; reflexivity).
    destruct (IH (handle P Fire s1)) as (es & s' & A & B & Q).
    { rewrite (fireTimer_pick s1 t rest E1).
      rewrite (proj1 (runTimer_pending _ _)).
      apply pickNext_length in E. rewrite Hn in E.
      destruct s1; simpl. lia. }
    exists (Elapse d :: Fire :: es), s'. split; [exact A|]. split; [|exact Q].
    assert (D : (0 <=? d) = true) by (apply Z.leb_le; subst d; lia).
    assert (F : (due t <=? clock s1) = true)
      by (apply Z.leb_le; rewrite C1; subst d; lia).
    change (run P (Elapse d :: Fire :: es) s)
      with (match step P (Elapse d) s with
            | Some x => run P (Fire :: es) x
            | None => None
            end).
    unfold step at 1. cbn [enabled]. rewrite D. cbn [handle]. fold s1.
    cbn [run]. unfold step. cbn [enabled]. rewrite E1, F. exact B.
Qed.

End Runs.

(** ** The opening script *)

Lemma append_assoc (a b c : string) :
  ((a ++ b) ++ c = a ++ b ++ c)%string.
Proof. induction a as [|x a IH]; simpl; [reflexivity|]. rewrite IH. reflexivity. Qed.

Lemma occursIn_here (x r : string) : occursIn x (x ++ r)%string.
Proof. exists "", r. reflexivity. Qed.

Lemma occursIn_append (a x r : string) :
  occursIn x r -> occursIn x (a ++ r)%string.
Proof.
  intros (pre & post & ->). exists (a ++ pre)%string, post.
  rewrite append_assoc. reflexivity.
Qed.

Lemma append_empty (a : string) : (a ++ "")%string = a.
Proof. induction a as [|x a IH]; simpl; [reflexivity|]. rewrite IH. reflexivity. Qed.

Lemma occursIn_refl (x : string) : occursIn x x.
Proof. exists "", "". simpl. rewrite append_empty. reflexivity. Qed.

Lemma occursIn_trans (a b c : string) :
  occursIn a b -> occursIn b c -> occursIn a c.
Proof.
  intros (p1 & q1 & ->) (p2 & q2 & ->).
  exists (p2 ++ p1)%string, (q1 ++ q2)%string.
  rewrite !append_assoc. reflexivity.
Qed.

Lemma occursIn_concat (sep x : string) (l : list string) :
  In x l -> occursIn x (String.concat sep l).
Proof.
  induction l as [|y l IH]; intros H; [destruct H|].
  destruct H as [->|H].
  - destruct l; simpl; [apply occursIn_refl|apply occursIn_here].
  - destruct l as [|z l]; [destruct H|].
    change (occursIn x (y ++ sep ++ String.concat sep (z :: l))%string).
    do 2 apply occursIn_append. apply IH, H.
Qed.

(** ** The items in the third line of the opening script *)

Section Texts.
Variable P : Platform.

Lemma item_in_itemsText (o : Order) (item : Item) :
  In item (items o) ->
  occursIn (name item) (itemsText P o) /\
  occursIn (numberToString P (quantity item)) (itemsText P o).
Proof.
  intros H.
  assert (I : occursIn (itemText P item) (itemsText P o)).
  { unfold itemsText. cbn [String.concat].
    do 2 apply occursIn_append.
    apply occursIn_trans with (String.concat ", " (map (itemText P) (items o))).
    - apply occursIn_concat, in_map, H.
    - apply occursIn_here. }
  split; (apply occursIn_trans with (itemText P item); [|exact I]);
    unfold itemText; cbn [String.concat].
  - do 4 apply occursIn_append. apply occursIn_here.
  - apply occursIn_here.
Qed.

End Texts.

Section Script.
Variable P : Platform.
Variable o : Order.

Lemma startCall_phase (s : State) :
  wf P s -> selectedOrder s = Some o ->
  scriptPhase P o (startCall P s) /\ callState (startCall P s) = dialing.
Proof.
  intros W Sel. pose proof (speechless_step P StartCall s (proj1 (proj2 W))) as Sp.
  split; [split; [exact Sp|left]|]; clear Sp.
  - destruct W as (T & _). apply filter_tracked_nil in T. revert T.
    unfold startCall. rewrite Sel.
    destruct s as [os sid cv cs co rs am tr pt nid au it ck].
    destruct (isBrowser P) eqn:B; full_red; rewrite ?B; full_red;
      intros T; [destruct au; full_red|]; rewrite T;
      eexists _, _, _, _; (split; [reflexivity|]);
      (split; [unfold introDelay; lia|reflexivity]).
  - unfold startCall. rewrite Sel.
    destruct s as [os sid cv cs co rs am tr pt nid au it ck].
    destruct (isBrowser P) eqn:B; full_red; rewrite ?B; full_red;
      [destruct au; full_red|]; reflexivity.
Qed.

Lemma scriptPhase_step (e : Event) (s : State) :
  isEnvEvent e = true -> enabled e s = true ->
  scriptPhase P o s -> scriptPhase P o (handle P e s).
Proof.
  intros He En [Sp Ph]. split; [apply speechless_step, Sp|].
  destruct s as [os sid cv cs co rs am tr pt nid au it ck].
  unfold speechless in Sp. revert Sp Ph En. fields_red. intros Sp Ph En.
  destruct e; try discriminate He; clear He.
  - (* Elapse *) exact Ph.
  - (* Fire *)
    destruct Ph as [(i1 & d1 & i2 & d2 & -> & Hd & Hc)|
                    [(i2 & d2 & -> & Hc)|(-> & _)]];
      [| |discriminate En].
    + right; left. apply Z.leb_le in Hd.
      match goal with
      | |- context [handle P Fire ?S] =>
          assert (E : pickNext (pendingTimers S) =
                      Some (mkTimer i1 d1 (AgentLine (introText P o) introOptions),
                            [mkTimer i2 d2 (AgentLine (itemsText P o) itemsOptions)]))
            by (simpl; rewrite Hd; reflexivity);
          rewrite (fireTimer_pick P S _ _ E); clear E
      end.
      cbn [runTimer action].
      unfold agentLineCallback, addMessage, speak, introOptions, itemsOptions.
      destruct (isBrowser P) eqn:B; full_red;
        [destruct au; full_red|];
        exists i2, d2; (split; [reflexivity|]);
        rewrite map_app, Hc; reflexivity.
    + right; right.
      match goal with
      | |- context [handle P Fire ?S] =>
          assert (E : pickNext (pendingTimers S) =
                      Some (mkTimer i2 d2 (AgentLine (itemsText P o) itemsOptions), []))
            by reflexivity;
          rewrite (fireTimer_pick P S _ _ E); clear E
      end.
      cbn [runTimer action].
      unfold agentLineCallback, addMessage, speak, introOptions, itemsOptions.
      destruct (isBrowser P) eqn:B; full_red.
      * destruct au; full_red; (split; [reflexivity|]);
          (split; [rewrite map_app, Hc; reflexivity|left; reflexivity]).
      * destruct (Sp eq_refl) as [-> ->].
        split; [reflexivity|].
        split; [rewrite map_app, Hc; reflexivity|right; auto].
  - (* SpeechEnd *)
    destruct au as [u|]; [|discriminate En].
    destruct it; [|discriminate En].
    destruct Ph as [A|[B|(Hp & Hc & [Hu|(Hu & _)])]];
      [left|right; left|right; right|discriminate Hu].
    + destruct u as [[[|]|] [[|]|]]; exact A.
    + destruct u as [[[|]|] [[|]|]]; exact B.
    + injection Hu as ->. split; [exact Hp|]. split; [exact Hc|].
      right. auto.
  - (* SpeechInterrupted *)
    destruct it as [|u it]; [discriminate En|].
    destruct Ph as [A|[B|(Hp & Hc & [Hu|(_ & Hi & _)])]];
      [left|right; left|right; right|discriminate Hi].
    + destruct u as [[[|]|] [[|]|]]; exact A.
    + destruct u as [[[|]|] [[|]|]]; exact B.
    + split; [destruct u as [[[|]|] [[|]|]]; exact Hp|].
      split; [destruct u as [[[|]|] [[|]|]]; exact Hc|].
      left. destruct u as [[[|]|] [[|]|]]; exact Hu.
Qed.

Lemma scriptPhase_quiescent (s : State) :
  scriptPhase P o s -> quiescent s ->
  map content (conversation s) = scriptLines P o /\
  callState s = awaiting_response.
Proof.
  intros [_ Ph] (Qp & Qa & Qi).
  destruct Ph as [(i1 & d1 & i2 & d2 & E & _)|
                  [(i2 & d2 & E & _)|(_ & Hc & [Hu|(_ & _ & Hs)])]];
    try congruence. auto.
Qed.

End Script.

(** ** Handlers and their pending work *)

Section Helpers.
Variable P : Platform.

Lemma selectedOrder_ext (s s' : State) :
  orders s' = orders s -> selectedOrderId s' = selectedOrderId s ->
  selectedOrder s' = selectedOrder s.
Proof. unfold selectedOrder. intros -> ->. reflexivity. Qed.

Lemma handleRescheduleSelection_fields (slot : string) (s : State) (o : Order) :
  selectedOrder s = Some o ->
  conversation (handleRescheduleSelection slot s) =
    conversation s ++ [mkEntry customer (slotCustomerText slot) (clock s) None] /\
  rescheduleSlot (handleRescheduleSelection slot s) = slot /\
  callState (handleRescheduleSelection slot s) = callState s /\
  callOutcome (handleRescheduleSelection slot s) = callOutcome s /\
  orders (handleRescheduleSelection slot s) = orders s /\
  selectedOrderId (handleRescheduleSelection slot s) = selectedOrderId s /\
  pendingTimers (handleRescheduleSelection slot s) =
    pendingTimers s ++
    [ mkTimer (nextTimeoutId s) (clock s + 500)
        (AgentLine (slotAgentText slot) (mkOptions (Some false) None));
      mkTimer (nextTimeoutId s + 1) (clock s + 2000)
        (AgentLine "Thanks for confirming. Have a great day!"
           (mkOptions (Some false) (Some true)));
      mkTimer (nextTimeoutId s + 1 + 1) (clock s + 2300)
        (CompleteCall (Some o) rescheduled (mkPatch st_confirmed (Some slot))) ].
Proof.
  intros Sel. unfold handleRescheduleSelection. rewrite Sel.
  destruct s as [os sid cv cs co rs am tr pt nid au it ck].
  full_red. rewrite <- !app_assoc. repeat split; reflexivity.
Qed.

Lemma respond_keeps (type : ResponseType) (s : State) :
  keeps s (handleCustomerResponse P type s).
Proof.
  unfold keeps, handleCustomerResponse.
  destruct (selectedOrder s); [|split; reflexivity].
  destruct s as [os sid cv cs co rs am tr pt nid au it ck].
  destruct type; full_red; split; reflexivity.
Qed.

(** Once a slot is picked, the order is rewritten when the last timer of
    the selection fires. *)
Lemma slot_commit (slot : string) (s : State) (o : Order) :
  selectedOrder s = Some o ->
  eventually P (handleRescheduleSelection slot s) (rescheduledTo (id o) slot).
Proof.
  intros Sel es s4 Hes Hrun Hp.
  destruct (handleRescheduleSelection_fields slot s o Sel)
    as (_ & _ & _ & _ & Ho & Hs & Ht).
  set (s3 := handleRescheduleSelection slot s) in *.
  set (T := mkTimer (nextTimeoutId s + 1 + 1) (clock s + 2300)
              (CompleteCall (Some o) rescheduled
                 (mkPatch st_confirmed (Some slot)))) in *.
  assert (Hin : In T (pendingTimers s3)).
  { rewrite Ht. apply in_or_app. right. simpl. auto. }
  destruct (timer_eventually_fires P es s3 s4 T Hes Hrun Hp Hin)
    as (es1 & es2 & sb & rest & -> & He1 & Hr1 & Hpick & Hfire).
  assert (K : keeps s sb).
  { apply keeps_trans with s3.
    - split; [exact Hs|]. rewrite Ho. reflexivity.
    - apply (env_run_keeps P es1), Hr1; exact He1. }
  destruct (keeps_selected s sb o K Sel) as (x & Hx & Hid).
  exists (es1 ++ [Fire]), es2, (runTimer P (action T) (setPendingTimers rest sb)).
  split; [rewrite <- app_assoc; reflexivity|]. split; [exact Hfire|].
  assert (Hx' : selectedOrder (setPendingTimers rest sb) = Some x).
  { rewrite <- Hx. apply selectedOrder_ext; destruct sb; reflexivity. }
  destruct (completeCall_selected (setPendingTimers rest sb) o x rescheduled
              (mkPatch st_confirmed (Some slot)) Hx' (eq_sym Hid))
    as (A & B & C & _).
  exists (applyPatch (mkPatch st_confirmed (Some slot)) x).
  subst T. cbn [action runTimer].
  repeat split; auto.
Qed.

Lemma completes_any (s : State) : completes P s.
Proof. exact (drain_exists P _ s eq_refl). Qed.

End Helpers.

(** ** The properties of the specification *)

Section Claims.
Variable P : Platform.

(** C1 (as amended).  In every reachable state whose indicator is [muted]
    the agent is muted, so [toggleMute] is an unmute; it sets the state to
    [awaiting_response] when the transcript has at least one line and to
    [dialing] when the transcript is empty. *)
Theorem unmute_from_muted (s : State) :
  reachable P s -> callState s = muted ->
  agentMuted s = true /\
  agentMuted (toggleMute P s) = false /\
  callState (toggleMute P s) =
    match conversation s with
    | [] => dialing
    | _ :: _ => awaiting_response
    end /\
  handle P ToggleMute s = toggleMute P s.
Proof.
  intros R M. apply reachable_wf in R as (_ & _ & Hm).
  specialize (Hm M). revert M Hm.
  destruct s as [os sid cv cs co rs am tr pt nid au it ck].
  fields_red. intros -> ->. cbn [handle].
  unfold agentMutedEffect, toggleMute. full_red. auto.
Qed.

(** C2 (as amended).  Whenever the outcome of a reachable state is
    non-null, the execution that led there has passed through a state with
    that outcome which was [resolved], or, for [rescheduled], which was
    [awaiting_response] right after the operator chose the reschedule
    response. *)
Theorem outcome_set_on_resolution (es : list Event) :
  forall (s : State) (o : CallOutcome),
  run P es (init P) = Some s -> callOutcome s = Some o ->
  exists es1 es2 sm,
    es = es1 ++ es2 /\ run P es1 (init P) = Some sm /\
    callOutcome sm = Some o /\
    (callState sm = resolved \/
     (o = rescheduled /\ callState sm = awaiting_response /\
      exists es0, es1 = es0 ++ [Respond reschedule])).
Proof.
  induction es as [|e es IH] using rev_ind; intros s o Hrun Ho.
  - inversion Hrun; subst. discriminate Ho.
  - rewrite run_app in Hrun.
    destruct (run P es (init P)) as [s0|] eqn:E0; [|discriminate].
    simpl in Hrun. destruct (step P e s0) as [s1|] eqn:E1; [|discriminate].
    inversion Hrun; subst s1. clear Hrun.
    pose proof E1 as E1'. apply step_inv in E1' as [_ ->].
    assert (Hfull : run P (es ++ [e]) (init P) = Some (handle P e s0)).
    { rewrite run_app, E0. simpl. rewrite E1. reflexivity. }
    destruct (outcome_step P e s0) as [H|[H|[H|(He & H & Hs)]]].
    + rewrite H in Ho.
      destruct (IH s0 o eq_refl Ho) as (es1 & es2 & sm & -> & A & B & C).
      exists es1, (es2 ++ [e]), sm. rewrite app_assoc. auto.
    + congruence.
    + exists (es ++ [e]), [], (handle P e s0). rewrite app_nil_r. auto.
    + exists (es ++ [e]), [], (handle P e s0). rewrite app_nil_r.
      repeat split; auto. right. repeat split; try congruence.
      exists es. congruence.
Qed.

(** C4.  Starting a call for the selected order [o] appends the system line
    announcing the dial and sets the state to [dialing]; the browser can run
    the scheduled callbacks to the end, and whenever it has, the transcript
    consists of exactly the dial line, the agent line with the id and the
    formatted total of [o] ([awaitingResponse] false) and the agent line
    listing the items of [o] and asking for confirmation ([awaitingResponse]
    true), in this order, and the state is [awaiting_response].  The three
    lines are the templates of the source, filled in: the dial line holds
    the phone number, the second line the customer name, the order id and
    the formatted total, and the third line the quantity and the name of
    every item, the payment method in lower case and the delivery slot. *)
Theorem start_call_script (s : State) (o : Order) :
  reachable P s -> selectedOrder s = Some o ->
  map content (conversation (startCall P s)) = [(system, dialText o, None)] /\
  callState (startCall P s) = dialing /\
  completes P (startCall P s) /\
  (forall es s', forallb isEnvEvent es = true ->
                 run P es (startCall P s) = Some s' -> quiescent s' ->
     map content (conversation s') =
       [ (system, dialText o, None);
         (agent, introText P o, Some false);
         (agent, itemsText P o, Some true) ] /\
     callState s' = awaiting_response) /\
  occursIn (id o) (introText P o) /\
  occursIn (formatINR P (total o)) (introText P o) /\
  occursIn (String.concat ", " (map (itemText P) (items o))) (itemsText P o) /\
  dialText o = ("Dialing " ++ phoneNumber o ++ "…")%string /\
  introText P o =
    ("Hello " ++ customerName o ++
     ", this is the Flipkart order validation desk. I'm calling to confirm your order "
     ++ id o ++ " for " ++ formatINR P (total o) ++ ".")%string /\
  itemsText P o =
    ("It includes " ++
     String.concat ", "
       (map (fun item =>
               (numberToString P (quantity item) ++ " " ++ name item ++
                (if (1 <? quantity item)%Z then "s" else ""))%string)
            (items o)) ++
     " with " ++ toLowerCase P (paymentMethod o) ++
     ". Is everything correct so we can schedule delivery " ++
     deliverySlot o ++ "?")%string /\
  (forall item, In item (items o) ->
     occursIn (name item) (itemsText P o) /\
     occursIn (numberToString P (quantity item)) (itemsText P o)).
Proof.
  intros R Sel. apply reachable_wf in R.
  destruct (startCall_phase P o s R Sel) as [Ph Hd].
  split; [|split; [exact Hd|split; [apply completes_any|split]]].
  - destruct Ph as [_ [(i1 & d1 & i2 & d2 & _ & _ & Hc)|
                       [(i2 & d2 & E & _)|(E & _)]]].
    + exact Hc.
    + exfalso. revert E. unfold startCall. rewrite Sel.
      destruct R as (T & _). apply filter_tracked_nil in T. revert T.
      destruct s as [os sid cv cs co rs am tr pt nid au it ck].
      destruct (isBrowser P) eqn:B; full_red; rewrite ?B; full_red;
        intros T; [destruct au; full_red|]; rewrite T; discriminate.
    + exfalso. revert E. unfold startCall. rewrite Sel.
      destruct s as [os sid cv cs co rs am tr pt nid au it ck].
      destruct (isBrowser P) eqn:B; full_red; rewrite ?B; full_red;
        [destruct au; full_red|];
        match goal with
        | |- context [filter ?f ?l] => destruct (filter f l)
        end; discriminate.
  - intros es s' Hes Hrun Hq.
    apply (scriptPhase_quiescent P o s'); [|exact Hq].
    refine (run_env_invariant P (scriptPhase P o) _ es _ s' Hes Ph Hrun).
    intros e x He Hx En. apply scriptPhase_step; assumption.
  - split; [|split; [|split]].
    + unfold introText. cbn [String.concat].
      do 6 apply occursIn_append. apply occursIn_here.
    + unfold introText. cbn [String.concat].
      do 10 apply occursIn_append. apply occursIn_here.
    + unfold itemsText. cbn [String.concat].
      do 2 apply occursIn_append. apply occursIn_here.
    + split; [reflexivity|]. split; [reflexivity|]. split; [reflexivity|].
      intros item Hin. apply item_in_itemsText, Hin.
Qed.

(** C5.  When the operator chooses the reschedule response for the selected
    order [o] and then, after any browser events, picks slot [slot], the
    browser can run the callbacks to the end, and every such execution
    passes through a state in which that order has status confirmed and
    delivery slot exactly [slot], the outcome is [rescheduled] and the state
    is [resolved]. *)
Theorem reschedule_then_slot (s s2 : State) (o : Order) (slot : string)
    (es1 : list Event) :
  selectedOrder s = Some o ->
  forallb isEnvEvent es1 = true ->
  run P es1 (handleCustomerResponse P reschedule s) = Some s2 ->
  callOutcome (handleCustomerResponse P reschedule s) = Some rescheduled /\
  rescheduleSlot (handleRescheduleSelection slot s2) = slot /\
  completes P (handleRescheduleSelection slot s2) /\
  eventually P (handleRescheduleSelection slot s2)
    (rescheduledTo (id o) slot).
Proof.
  intros Sel Hes Hrun.
  assert (K : keeps s s2).
  { apply keeps_trans with (handleCustomerResponse P reschedule s).
    - apply respond_keeps.
    - exact (env_run_keeps P es1 _ _ Hes Hrun). }
  destruct (keeps_selected s s2 o K Sel) as (o2 & Sel2 & Hid).
  split; [|split; [|split]].
  - unfold handleCustomerResponse. rewrite Sel.
    destruct s as [os sid cv cs co rs am tr pt nid au it ck]. reflexivity.
  - apply (handleRescheduleSelection_fields slot s2 o2 Sel2).
  - apply completes_any.
  - rewrite <- Hid. apply slot_commit, Sel2.
Qed.

(** C6.  Whenever an order [o] is selected, escalation appends the agent
    line announcing it, sets the outcome to [needs_support] and the state to
    [resolved], and gives the selected order the status requires_followup,
    whatever the transcript was. *)
Theorem escalation_resolves (s : State) (o : Order) :
  selectedOrder s = Some o ->
  callOutcome (escalateToSupport s) = Some needs_support /\
  callState (escalateToSupport s) = resolved /\
  selectedOrder (escalateToSupport s) =
    Some (applyPatch (mkPatch st_requires_followup None) o) /\
  status (applyPatch (mkPatch st_requires_followup None) o)
    = st_requires_followup /\
  conversation (escalateToSupport s) =
    conversation s ++ [mkEntry agent escalationText (clock s) None].
Proof.
  intros Sel. unfold escalateToSupport. rewrite Sel.
  set (s1 := addMessage (mkEntry agent escalationText (clock s) None) s).
  assert (Sel1 : selectedOrder s1 = Some o).
  { rewrite <- Sel. apply selectedOrder_ext; destruct s; reflexivity. }
  destruct (completeCall_selected s1 o o needs_support
              (mkPatch st_requires_followup None) Sel1 eq_refl)
    as (A & B & C & D).
  repeat split; auto. rewrite D. destruct s; reflexivity.
Qed.

(** C7.  From every reachable state, reset gives the empty call: empty
    transcript, state [idle], no outcome, no chosen slot, and no timer left
    pending, so that whatever the browser does afterwards the transcript
    stays empty. *)
Theorem reset_clears_session (s : State) :
  reachable P s ->
  conversation (resetCall P s) = [] /\
  callState (resetCall P s) = idle /\
  callOutcome (resetCall P s) = None /\
  rescheduleSlot (resetCall P s) = "" /\
  pendingTimers (resetCall P s) = [] /\
  timeoutsRef (resetCall P s) = [] /\
  (forall es s', forallb isEnvEvent es = true ->
                 run P es (resetCall P s) = Some s' ->
                 conversation s' = [] /\ callOutcome s' = None /\
                 orders s' = orders s).
Proof.
  intros R. apply reachable_wf in R as (T & _).
  destruct (resetCall_fields P s T) as (A & B & C & D & E & F & G & _).
  split; [exact A|]. split; [exact B|]. split; [exact C|].
  split; [exact D|]. split; [exact E|]. split; [exact F|].
  intros es s' Hes Hrun.
  destruct (env_run_quiet P es _ s' Hes E Hrun) as (_ & X & Y & Z).
  split; [congruence|]. split; congruence.
Qed.

(** C9.  With no order selected, starting a call, every customer response,
    the slot selection and the escalation leave the whole state as it is. *)
Theorem no_selected_order_no_op (s : State) :
  selectedOrder s = None ->
  startCall P s = s /\
  (forall type, handleCustomerResponse P type s = s) /\
  (forall slot, handleRescheduleSelection slot s = s) /\
  escalateToSupport s = s.
Proof.
  intros Sel.
  unfold startCall, handleCustomerResponse, handleRescheduleSelection,
    escalateToSupport.
  rewrite Sel. auto.
Qed.

(** C10.  The slot selection checks only that an order is selected: in any
    state, whatever the call state and the outcome are, it appends the
    customer line, records the slot, leaves the call state and the outcome
    as they are, and the order is rewritten (confirmed, delivery slot
    [slot]) once its last timer fires. *)
Theorem slot_selection_only_needs_order (s : State) (o : Order)
    (slot : string) :
  selectedOrder s = Some o ->
  conversation (handleRescheduleSelection slot s) =
    conversation s ++
    [mkEntry customer (slotCustomerText slot) (clock s) None] /\
  rescheduleSlot (handleRescheduleSelection slot s) = slot /\
  callState (handleRescheduleSelection slot s) = callState s /\
  callOutcome (handleRescheduleSelection slot s) = callOutcome s /\
  completes P (handleRescheduleSelection slot s) /\
  eventually P (handleRescheduleSelection slot s)
    (rescheduledTo (id o) slot).
Proof.
  intros Sel.
  destruct (handleRescheduleSelection_fields slot s o Sel)
    as (A & B & C & D & _).
  repeat split; auto.
  - apply completes_any.
  - apply slot_commit, Sel.
Qed.

End Claims.

(** ** Concrete executions *)

(** With speech synthesis, the second line of the opening script interrupts
    the first; once both speech callbacks have arrived the state is
    [awaiting_response]. *)
Example voiced_opening :
  option_map (fun s => (callState s, List.length (conversation s)))
    (run voiced (openingDone ++ [SpeechInterrupted; SpeechEnd]) (init voiced))
  = Some (awaiting_response, 3%nat).
Proof. vm_compute. reflexivity. Qed.

(** Without speech synthesis, an escalation during the opening script is
    followed by the pending lines: the outcome stays [needs_support] while
    the state leaves [resolved]. *)
Example escalation_then_pending_line :
  option_map (fun s => (callState s, callOutcome s))
    (run silent [StartCall; Escalate; Elapse 1200; Fire] (init silent))
  = Some (speaking, Some needs_support).
Proof. vm_compute. reflexivity. Qed.

Lemma after_reachable (P : Platform) (es : list Event) :
  run P es (init P) <> None -> reachable P (after P es).
Proof.
  intros H. exists es. unfold after.
  destruct (run P es (init P)); [reflexivity|congruence].
Qed.

(** C1, counterexample: after a call is started and muted, the transcript
    holds the dial line, and unmuting gives [awaiting_response], not
    [speaking]. *)
Lemma unmute_does_not_resume_speaking :
  ~ (forall s, reachable silent s -> callState s = muted ->
       callState (toggleMute silent s) =
         match conversation s with
         | [] => dialing
         | _ :: _ => speaking
         end).
Proof.
  intros H.
  specialize (H (after silent [StartCall; ToggleMute])).
  assert (R : reachable silent (after silent [StartCall; ToggleMute]))
    by (apply after_reachable; vm_compute; discriminate).
  specialize (H R eq_refl). vm_compute in H. discriminate H.
Qed.

(** C1 on a call that was started and muted. *)
Lemma unmute_from_muted_witness :
  reachable silent (after silent [StartCall; ToggleMute]) /\
  callState (after silent [StartCall; ToggleMute]) = muted /\
  callState (toggleMute silent (after silent [StartCall; ToggleMute]))
    = awaiting_response.
Proof.
  assert (R : reachable silent (after silent [StartCall; ToggleMute]))
    by (apply after_reachable; vm_compute; discriminate).
  split; [exact R|]. split; [reflexivity|].
  destruct (unmute_from_muted silent _ R eq_refl) as (_ & _ & H & _).
  exact H.
Defined.

(** C2, counterexample: once the opening script is delivered and the
    operator chooses the reschedule response, the outcome is [rescheduled]
    while the state is [awaiting_response], and no state of the execution
    so far was [resolved]. *)
Lemma outcome_rescheduled_while_awaiting :
  ~ (forall es s,
       run silent es (init silent) = Some s -> callOutcome s <> None ->
       exists es1 es2 sm,
         es = es1 ++ es2 /\ run silent es1 (init silent) = Some sm /\
         callState sm = resolved).
Proof.
  intros H.
  destruct (H (openingDone ++ [Respond reschedule])
              (after silent (openingDone ++ [Respond reschedule])))
    as (es1 & es2 & sm & Heq & Hrun & Hs).
  - vm_compute; reflexivity.
  - vm_compute; discriminate.
  - revert Hs.
    repeat (destruct es1 as [|? es1];
            [ vm_compute in Hrun; injection Hrun as <-; discriminate
            | injection Heq as <- Heq ]).
    destruct es1; [|destruct es2; discriminate Heq].
    vm_compute in Hrun; injection Hrun as <-; discriminate.
Qed.

(** C2 on a call that was started and escalated at once. *)
Lemma outcome_set_on_resolution_witness :
  run silent [StartCall; Escalate] (init silent)
    = Some (after silent [StartCall; Escalate]) /\
  callOutcome (after silent [StartCall; Escalate]) = Some needs_support /\
  exists es1 es2 sm,
    [StartCall; Escalate] = es1 ++ es2 /\
    run silent es1 (init silent) = Some sm /\
    callOutcome sm = Some needs_support /\
    (callState sm = resolved \/
     (needs_support = rescheduled /\ callState sm = awaiting_response /\
      exists es0, es1 = es0 ++ [Respond reschedule])).
Proof.
  split; [vm_compute; reflexivity|]. split; [reflexivity|].
  apply (outcome_set_on_resolution silent [StartCall; Escalate]
           (after silent [StartCall; Escalate]) needs_support).
  - vm_compute; reflexivity.
  - reflexivity.
Defined.


(** C4 for the first seed order, from the first render. *)
Lemma start_call_script_witness :
  reachable silent (init silent) /\
  selectedOrder (init silent) = Some demoOrder1 /\
  forall es s', forallb isEnvEvent es = true ->
                run silent es (startCall silent (init silent)) = Some s' ->
                quiescent s' ->
    map content (conversation s') =
      [ (system, "Dialing +91 90000 00001…", None);
        (agent,
         "Hello Asha Rao, this is the Flipkart order validation desk. I'm calling to confirm your order OD-1001 for INR 1499.",
         Some false);
        (agent,
         "It includes 2 Phone cases, 1 Charger with cash on delivery. Is everything correct so we can schedule delivery Tomorrow, 9AM - 12PM?",
         Some true) ] /\
    callState s' = awaiting_response.
Proof.
  assert (R : reachable silent (init silent)) by (exists []; reflexivity).
  split; [exact R|]. split; [reflexivity|].
  destruct (start_call_script silent (init silent) demoOrder1 R eq_refl)
    as (_ & _ & _ & H & _).
  exact H.
Defined.

(** C5 after the opening script: the reschedule response, the agent's
    offer of slots, then a slot of the menu. *)
Lemma reschedule_then_slot_witness :
  selectedOrder (after silent openingDone) = Some demoOrder1 /\
  run silent [Elapse 500; Fire]
      (handleCustomerResponse silent reschedule (after silent openingDone))
    = Some (after silent
              (openingDone ++ [Respond reschedule; Elapse 500; Fire])) /\
  eventually silent
    (handleRescheduleSelection "Tomorrow, 2PM - 5PM"
       (after silent
          (openingDone ++ [Respond reschedule; Elapse 500; Fire])))
    (rescheduledTo "OD-1001" "Tomorrow, 2PM - 5PM").
Proof.
  assert (R : run silent [Elapse 500; Fire]
                (handleCustomerResponse silent reschedule
                   (after silent openingDone))
              = Some (after silent
                        (openingDone ++ [Respond reschedule; Elapse 500; Fire])))
    by (vm_compute; reflexivity).
  split; [reflexivity|]. split; [exact R|].
  apply (reschedule_then_slot silent (after silent openingDone)
           (after silent
              (openingDone ++ [Respond reschedule; Elapse 500; Fire]))
           demoOrder1 "Tomorrow, 2PM - 5PM" [Elapse 500; Fire]
           eq_refl eq_refl R).
Defined.

(** C6 after the opening script. *)
Lemma escalation_resolves_witness :
  selectedOrder (after silent openingDone) = Some demoOrder1 /\
  callOutcome (escalateToSupport (after silent openingDone))
    = Some needs_support /\
  callState (escalateToSupport (after silent openingDone)) = resolved /\
  option_map status (selectedOrder (escalateToSupport (after silent openingDone)))
    = Some st_requires_followup.
Proof.
  split; [reflexivity|].
  destruct (escalation_resolves (after silent openingDone) demoOrder1 eq_refl)
    as (A & B & C & _).
  split; [exact A|]. split; [exact B|]. rewrite C. reflexivity.
Defined.

(** C7 in the middle of the opening script, with one timer pending. *)
Lemma reset_clears_session_witness :
  reachable silent (after silent [StartCall; Elapse 1200; Fire]) /\
  pendingTimers (after silent [StartCall; Elapse 1200; Fire]) <> [] /\
  conversation (resetCall silent (after silent [StartCall; Elapse 1200; Fire]))
    = [] /\
  pendingTimers (resetCall silent (after silent [StartCall; Elapse 1200; Fire]))
    = [].
Proof.
  assert (R : reachable silent (after silent [StartCall; Elapse 1200; Fire]))
    by (apply after_reachable; vm_compute; discriminate).
  split; [exact R|]. split; [vm_compute; discriminate|].
  destruct (reset_clears_session silent _ R) as (A & _ & _ & _ & E & _).
  split; [exact A|exact E].
Defined.

(** C9 on a page without orders. *)
Lemma no_selected_order_no_op_witness :
  selectedOrder (init emptyShop) = None /\
  startCall emptyShop (init emptyShop) = init emptyShop /\
  escalateToSupport (init emptyShop) = init emptyShop.
Proof.
  split; [reflexivity|].
  destruct (no_selected_order_no_op emptyShop (init emptyShop) eq_refl)
    as (A & _ & _ & D).
  split; [exact A|exact D].
Defined.

(** C10 from the first render: the state is [idle], the outcome null, and
    the slot is not one of the menu. *)
Lemma slot_selection_only_needs_order_witness :
  selectedOrder (init silent) = Some demoOrder1 /\
  callState (init silent) = idle /\
  callOutcome (init silent) = None /\
  rescheduleSlot (handleRescheduleSelection "Sunday, 6AM" (init silent))
    = "Sunday, 6AM" /\
  eventually silent (handleRescheduleSelection "Sunday, 6AM" (init silent))
    (rescheduledTo "OD-1001" "Sunday, 6AM").
Proof.
  split; [reflexivity|]. split; [reflexivity|]. split; [reflexivity|].
  destruct (slot_selection_only_needs_order silent (init silent) demoOrder1
              "Sunday, 6AM" eq_refl) as (_ & B & _ & _ & _ & F).
  split; [exact B|exact F].
Defined.

(** * Further properties of the component *)

(** ** Draining the timer table *)

Lemma fireOrder_pick (l : list Timer) (t : Timer) (rest : list Timer) :
  pickNext l = Some (t, rest) -> fireOrder l = t :: fireOrder rest.
Proof.
  intros E. unfold fireOrder. rewrite (pickNext_length l t rest E).
  simpl. rewrite E. reflexivity.
Qed.

Lemma pickNext_head (t : Timer) (r : list Timer) :
  (forall x, In x r -> due t <= due x) -> pickNext (t :: r) = Some (t, r).
Proof.
  intros H. simpl. destruct (pickNext r) as [[m r']|] eqn:E.
  - assert (Hm : In m r) by (apply (pickNext_In r m r' E); auto).
    apply H, Z.leb_le in Hm. rewrite Hm. reflexivity.
  - apply pickNext_none in E. subst. reflexivity.
Qed.

Lemma fireOrder_sorted (l : list Timer) :
  StronglySorted (fun a b => due a <= due b) l -> fireOrder l = l.
Proof.
  induction 1 as [|t r Hs IH Hall]; [reflexivity|].
  rewrite (fireOrder_pick (t :: r) t r).
  - rewrite IH. reflexivity.
  - apply pickNext_head. apply Forall_forall, Hall.
Qed.

Lemma lastOption_nil {A : Type} (l : list A) : lastOption l = None -> l = [].
Proof.
  induction l as [|x l IH]; [reflexivity|]. simpl.
  destruct l; [discriminate|]. intros H. specialize (IH H). discriminate.
Qed.

Lemma lastOption_snoc {A : Type} (l : list A) (x : A) :
  lastOption (l ++ [x]) = Some x.
Proof.
  induction l as [|y l IH]; [reflexivity|]. simpl.
  destruct (l ++ [x]) eqn:E; [destruct l; discriminate|]. exact IH.
Qed.

Section Drain.
Variable P : Platform.

Lemma onEnd_state (o : LineOptions) (s : State) :
  onEnd o s = setCallState (onEndState o) s.
Proof.
  unfold onEnd, onEndState.
  destruct (truthy (optMarkResolved o)); [reflexivity|].
  destruct (truthy (optAwaitingResponse o)); reflexivity.
Qed.

Lemma runTimer_ledger (t : Timer) (rest : list Timer) (s : State) :
  ledger (runTimer P (action t) (setPendingTimers rest s))
  = settleTimer (ledger s) t /\
  selectedOrderId (runTimer P (action t) (setPendingTimers rest s))
  = selectedOrderId s /\
  rescheduleSlot (runTimer P (action t) (setPendingTimers rest s))
  = rescheduleSlot s /\
  agentMuted (runTimer P (action t) (setPendingTimers rest s))
  = agentMuted s.
Proof.
  unfold ledger, settleTimer.
  destruct s as [os sid cv cs co rs am tr pt nid au it ck].
  destruct (action t) as [text o|[c|] out p]; cbn [runTimer].
  - unfold agentLineCallback, addMessage, speak. rewrite !onEnd_state.
    destruct (isBrowser P); full_red; [destruct au; full_red|];
      rewrite map_app; auto.
  - full_red. auto.
  - full_red. auto.
Qed.

Lemma env_nonfire (e : Event) (s : State) :
  isEnvEvent e = true -> e <> Fire ->
  ledger (handle P e s) = ledger s /\
  pendingTimers (handle P e s) = pendingTimers s /\
  selectedOrderId (handle P e s) = selectedOrderId s /\
  rescheduleSlot (handle P e s) = rescheduleSlot s /\
  agentMuted (handle P e s) = agentMuted s.
Proof.
  unfold ledger.
  destruct s as [os sid cv cs co rs am tr pt nid au it ck].
  destruct e; try discriminate; intros _ Hf; try congruence;
    cbn [handle speechEnd speechInterrupted]; rewrite ?onEnd_state;
    full_red; repeat (split_guard; full_red); auto.
Qed.

(** Whatever the speech timing, once the timer table is empty the
    transcript, the orders and the outcome are those obtained by running
    the callbacks in firing order. *)
Lemma drain_ledger (es : list Event) :
  forall s s',
  forallb isEnvEvent es = true -> run P es s = Some s' ->
  pendingTimers s' = [] ->
  ledger s' = fold_left settleTimer (fireOrder (pendingTimers s)) (ledger s) /\
  selectedOrderId s' = selectedOrderId s /\
  rescheduleSlot s' = rescheduleSlot s /\
  agentMuted s' = agentMuted s.
Proof.
  induction es as [|e es IH]; simpl; intros s s' Hes Hrun Hp.
  - inversion Hrun; subst. rewrite Hp. auto.
  - apply andb_prop in Hes as [He Hes].
    destruct (step P e s) as [s1|] eqn:E; [|discriminate].
    apply step_inv in E as [En ->].
    destruct (IH _ _ Hes Hrun Hp) as (A & B & C & D).
    destruct e; try discriminate He.
    + destruct (env_nonfire (Elapse ms) s eq_refl ltac:(discriminate))
        as (X1 & X2 & X3 & X4 & X5).
      rewrite A, B, C, D, X1, X2, X3, X4, X5. auto.
    + cbn [enabled] in En.
      destruct (pickNext (pendingTimers s)) as [[t rest]|] eqn:Ep;
        [|discriminate].
      rewrite (fireTimer_pick P s t rest Ep) in *.
      destruct (runTimer_ledger t rest s) as (X1 & X3 & X4 & X5).
      rewrite (proj1 (runTimer_pending P _ _)) in A.
      replace (pendingTimers (setPendingTimers rest s)) with rest in A
        by (destruct s; reflexivity).
      rewrite (fireOrder_pick _ _ _ Ep). simpl.
      rewrite A, B, C, D, X1, X3, X4, X5. auto.
    + destruct (env_nonfire SpeechEnd s eq_refl ltac:(discriminate))
        as (X1 & X2 & X3 & X4 & X5).
      rewrite A, B, C, D, X1, X2, X3, X4, X5. auto.
    + destruct (env_nonfire SpeechInterrupted s eq_refl ltac:(discriminate))
        as (X1 & X2 & X3 & X4 & X5).
      rewrite A, B, C, D, X1, X2, X3, X4, X5. auto.
Qed.

Lemma settle_speech_event (e : Event) (s : State) (last : option LineOptions) :
  isEnvEvent e = true -> e <> Fire -> enabled e s = true ->
  (lastCallback s = None \/ (isBrowser P = true /\ lastCallback s = last)) ->
  (lastCallback (handle P e s) = None \/
   (isBrowser P = true /\ lastCallback (handle P e s) = last)) /\
  match lastCallback (handle P e s) with
  | Some o => onEndState o
  | None => callState (handle P e s)
  end
  = match lastCallback s with
    | Some o => onEndState o
    | None => callState s
    end.
Proof.
  unfold lastCallback.
  destruct s as [os sid cv cs co rs am tr pt nid au it ck].
  destruct e; try discriminate; intros _ Hf En; try congruence;
    cbn [handle speechEnd speechInterrupted]; simpl in En; fields_red.
  - (* Elapse *) full_red. auto.
  - (* SpeechEnd *)
    destruct au as [u|]; [|discriminate En].
    destruct it; [|discriminate En].
    unfold speechEnd; fields_red. rewrite onEnd_state. full_red. auto.
  - (* SpeechInterrupted *)
    destruct it as [|u it]; [discriminate En|].
    unfold speechInterrupted; fields_red. rewrite onEnd_state. full_red.
    destruct au as [a|]; [auto|].
    destruct it as [|v it]; [auto|].
    change (lastOption (u :: v :: it)) with (lastOption (v :: it)).
    destruct (lastOption (v :: it)) eqn:L; [auto|].
    apply lastOption_nil in L. discriminate L.
Qed.

Lemma settle_fire (t : Timer) (rest : list Timer) (s : State)
    (last : option LineOptions) :
  (lastCallback s = None \/ (isBrowser P = true /\ lastCallback s = last)) ->
  determinate last [t] = true ->
  let s1 := runTimer P (action t) (setPendingTimers rest s) in
  let last1 := match action t with
               | AgentLine _ o => Some o
               | CompleteCall _ _ _ => last
               end in
  (lastCallback s1 = None \/ (isBrowser P = true /\ lastCallback s1 = last1)) /\
  match lastCallback s1 with
  | Some o => onEndState o
  | None => callState s1
  end
  = settleState (match lastCallback s with
                 | Some o => onEndState o
                 | None => callState s
                 end) t.
Proof.
  unfold lastCallback, settleState. cbn [determinate].
  destruct s as [os sid cv cs co rs am tr pt nid au it ck].
  destruct (action t) as [text o|[c|] out p]; cbn [runTimer]; intros G D.
  - unfold agentLineCallback, addMessage, speak. rewrite !onEnd_state.
    destruct (isBrowser P) eqn:B; full_red.
    + destruct au; full_red; auto.
    + destruct G as [G|[G _]]; [|discriminate G].
      revert G. fields_red. destruct au; [discriminate|].
      intros G. apply lastOption_nil in G. subst it. cbn [lastOption]. auto.
  - full_red. split; [exact G|].
    destruct au as [a|].
    + destruct G as [G|[_ G]]; [discriminate G|].
      revert G D. fields_red. intros <-.
      rewrite andb_true_r. destruct (onEndState a); try discriminate.
      reflexivity.
    + destruct (lastOption it) as [a|] eqn:L; [|reflexivity].
      destruct G as [G|[_ G]]; [revert G; fields_red; rewrite L; discriminate|].
      revert G D. fields_red. rewrite L. intros <-.
      rewrite andb_true_r. destruct (onEndState a); try discriminate.
      reflexivity.
  - full_red. auto.
Qed.

Lemma determinate_cons (last : option LineOptions) (t : Timer) (r : list Timer) :
  determinate last (t :: r) = true ->
  determinate last [t] = true /\
  determinate (match action t with
               | AgentLine _ o => Some o
               | CompleteCall _ _ _ => last
               end) r = true.
Proof.
  cbn [determinate]. destruct (action t) as [text o|[c|] out p]; auto.
  intros H. apply andb_prop in H as [A B]. rewrite A. auto.
Qed.

(** The state indicator at the end, when every completion follows a line
    that marks the call resolved. *)
Lemma drain_state (es : list Event) :
  forall s s' last,
  forallb isEnvEvent es = true -> run P es s = Some s' ->
  quiescent s' ->
  (lastCallback s = None \/ (isBrowser P = true /\ lastCallback s = last)) ->
  determinate last (fireOrder (pendingTimers s)) = true ->
  callState s' =
    fold_left settleState (fireOrder (pendingTimers s))
      (match lastCallback s with
       | Some o => onEndState o
       | None => callState s
       end).
Proof.
  induction es as [|e es IH]; simpl; intros s s' last Hes Hrun Hq G D.
  - inversion Hrun; subst. destruct Hq as (Hp & Ha & Hi).
    rewrite Hp. unfold lastCallback. rewrite Ha, Hi. reflexivity.
  - apply andb_prop in Hes as [He Hes].
    destruct (step P e s) as [s1|] eqn:E; [|discriminate].
    apply step_inv in E as [En ->].
    assert (Hfire : e = Fire \/ e <> Fire)
      by (destruct e; auto; right; discriminate).
    destruct Hfire as [->|Hf].
    + cbn [enabled] in En.
      destruct (pickNext (pendingTimers s)) as [[t rest]|] eqn:Ep;
        [|discriminate].
      rewrite (fireTimer_pick P s t rest Ep) in *.
      rewrite (fireOrder_pick _ _ _ Ep) in *.
      apply determinate_cons in D as [D1 D2].
      destruct (settle_fire t rest s last G D1) as [G1 F1].
      assert (Hrest : pendingTimers (runTimer P (action t) (setPendingTimers rest s)) = rest).
      { rewrite (proj1 (runTimer_pending P _ _)). destruct s; reflexivity. }
      rewrite (IH _ _ _ Hes Hrun Hq G1); rewrite Hrest; [|exact D2].
      simpl. rewrite F1. reflexivity.
    + destruct (settle_speech_event e s last He Hf En G) as [G1 F1].
      destruct (env_nonfire e s He Hf) as (_ & X2 & _).
      rewrite (IH _ _ last Hes Hrun Hq G1); rewrite X2; [|exact D].
      rewrite F1. reflexivity.
Qed.

(** A state with no speech outstanding and a timer table in firing order:
    where the browser ends up. *)
Lemma flow (es : list Event) (s s' : State) :
  lastCallback s = None ->
  StronglySorted (fun a b => due a <= due b) (pendingTimers s) ->
  determinate None (pendingTimers s) = true ->
  forallb isEnvEvent es = true -> run P es s = Some s' -> quiescent s' ->
  ledger s' = fold_left settleTimer (pendingTimers s) (ledger s) /\
  callState s' = fold_left settleState (pendingTimers s) (callState s) /\
  selectedOrderId s' = selectedOrderId s /\
  rescheduleSlot s' = rescheduleSlot s /\
  agentMuted s' = agentMuted s.
Proof.
  intros L S D Hes Hrun Hq.
  pose proof (fireOrder_sorted _ S) as F.
  destruct (drain_ledger es s s' Hes Hrun (proj1 Hq)) as (A & B & C & E).
  rewrite F in A.
  pose proof (drain_state es s s' None Hes Hrun Hq (or_introl L)) as X.
  rewrite F, L in X. auto.
Qed.

Lemma quiescent_lastCallback (s : State) : quiescent s -> lastCallback s = None.
Proof. intros (_ & A & I). unfold lastCallback. rewrite A, I. reflexivity. Qed.

Lemma selected_after_patch (s s' : State) (o : Order) (p : OrderPatch) :
  selectedOrder s = Some o ->
  selectedOrderId s' = selectedOrderId s ->
  orders s' = map (fun x => if String.eqb (id x) (id o)
                            then applyPatch p x else x) (orders s) ->
  selectedOrder s' = Some (applyPatch p o).
Proof.
  unfold selectedOrder. intros Sel -> ->.
  destruct (selectedOrderId s) as [k|]; [|discriminate].
  rewrite (find_id _ _ _ Sel). apply find_patch, Sel.
Qed.

Lemma respond_fields (type : ResponseType) (s : State) (o : Order) :
  selectedOrder s = Some o ->
  conversation (handleCustomerResponse P type s) =
    conversation s ++ [mkEntry customer (customerLines type) (clock s) None] /\
  orders (handleCustomerResponse P type s) = orders s /\
  selectedOrderId (handleCustomerResponse P type s) = selectedOrderId s /\
  activeUtterance (handleCustomerResponse P type s) = activeUtterance s /\
  interrupted (handleCustomerResponse P type s) = interrupted s /\
  agentMuted (handleCustomerResponse P type s) = agentMuted s /\
  callState (handleCustomerResponse P type s) =
    match type with reschedule => awaiting_response | _ => callState s end /\
  callOutcome (handleCustomerResponse P type s) =
    match type with reschedule => Some rescheduled | _ => callOutcome s end /\
  rescheduleSlot (handleCustomerResponse P type s) =
    match type with reschedule => "" | _ => rescheduleSlot s end /\
  pendingTimers (handleCustomerResponse P type s) =
    pendingTimers s ++
    match type with
    | confirm =>
        [ mkTimer (nextTimeoutId s) (clock s + 400)
            (AgentLine
               "Perfect, I will confirm the order and send you the delivery updates on SMS right away."
               (mkOptions (Some false) None));
          mkTimer (nextTimeoutId s + 1) (clock s + 2000)
            (AgentLine "Thank you for shopping with Flipkart. Have a great day!"
               (mkOptions (Some false) (Some true)));
          mkTimer (nextTimeoutId s + 1 + 1) (clock s + 2500)
            (CompleteCall (Some o) confirmed (mkPatch st_confirmed None)) ]
    | reschedule =>
        [ mkTimer (nextTimeoutId s) (clock s + 500)
            (AgentLine
               "Sure, I can help with that. I have a few delivery slots available, please pick the one that works best for you."
               (mkOptions (Some true) None)) ]
    | cancel =>
        [ mkTimer (nextTimeoutId s) (clock s + 700)
            (AgentLine
               "I understand. I will cancel the order right away and send a confirmation SMS. Thank you for your time."
               (mkOptions (Some false) (Some true)));
          mkTimer (nextTimeoutId s + 1) (clock s + 1400)
            (CompleteCall (Some o) cancelled (mkPatch st_cancelled None)) ]
    | query =>
        [ mkTimer (nextTimeoutId s) (clock s + 700)
            (AgentLine (queryText P o) (mkOptions (Some true) None)) ]
    end.
Proof.
  intros Sel. unfold handleCustomerResponse. rewrite Sel.
  destruct s as [os sid cv cs co rs am tr pt nid au it ck].
  destruct type; full_red; rewrite <- ?app_assoc; repeat split; reflexivity.
Qed.

End Drain.

(** ** The response flows *)

Ltac sorted_timers :=
  repeat (first [ apply SSorted_nil | apply SSorted_cons
                | apply Forall_nil | apply Forall_cons ]);
  cbn [due]; lia.

Section Flows.
Variable P : Platform.

Lemma response_flow (type : ResponseType) (s s' : State) (o : Order)
    (es : list Event) :
  quiescent s -> selectedOrder s = Some o ->
  determinate None (pendingTimers (handleCustomerResponse P type s)) = true ->
  forallb isEnvEvent es = true ->
  run P es (handleCustomerResponse P type s) = Some s' -> quiescent s' ->
  ledger s' =
    fold_left settleTimer (pendingTimers (handleCustomerResponse P type s))
      (map content (conversation s) ++ [(customer, customerLines type, None)],
       orders s,
       match type with reschedule => Some rescheduled | _ => callOutcome s end) /\
  callState s' =
    fold_left settleState (pendingTimers (handleCustomerResponse P type s))
      (match type with reschedule => awaiting_response | _ => callState s end) /\
  selectedOrderId s' = selectedOrderId s /\
  rescheduleSlot s' =
    match type with reschedule => "" | _ => rescheduleSlot s end.
Proof.
  intros Hq Sel D Hes Hrun Hq'.
  destruct (respond_fields P type s o Sel)
    as (Fc & Fo & Fs & Fa & Fi & Fm & Fst & Fout & Fr & Fp).
  destruct Hq as (Qp & Qa & Qi).
  assert (L : lastCallback (handleCustomerResponse P type s) = None).
  { unfold lastCallback. rewrite Fa, Fi, Qa, Qi. reflexivity. }
  assert (S : StronglySorted (fun a b => due a <= due b)
                (pendingTimers (handleCustomerResponse P type s))).
  { rewrite Fp, Qp. destruct type; sorted_timers. }
  destruct (flow P es _ s' L S D Hes Hrun Hq') as (A & B & C & E & _).
  unfold ledger at 2 in A. rewrite Fc, Fo, Fout, map_app in A.
  rewrite Fst in B. rewrite Fs in C. rewrite Fr in E.
  repeat split; assumption.
Qed.

(** X1.  Confirm, from a state with nothing pending: the transcript gains the
    customer line and the two closing lines, the selected order becomes
    confirmed, the outcome is [confirmed] and the call ends [resolved]. *)
Theorem confirm_flow (s s' : State) (o : Order) (es : list Event) :
  quiescent s -> selectedOrder s = Some o ->
  forallb isEnvEvent es = true ->
  run P es (handleCustomerResponse P confirm s) = Some s' -> quiescent s' ->
  map content (conversation s') =
    map content (conversation s) ++
    [ (customer, "Yes, please go ahead.", None);
      (agent,
       "Perfect, I will confirm the order and send you the delivery updates on SMS right away.",
       Some false);
      (agent, "Thank you for shopping with Flipkart. Have a great day!",
       Some false) ] /\
  callState s' = resolved /\
  callOutcome s' = Some confirmed /\
  selectedOrder s' = Some (applyPatch (mkPatch st_confirmed None) o) /\
  deliverySlot (applyPatch (mkPatch st_confirmed None) o) = deliverySlot o.
Proof.
  intros Hq Sel Hes Hrun Hq'.
  destruct (respond_fields P confirm s o Sel) as (_ & _ & _ & _ & _ & _ & _ & _ & _ & Fp).
  assert (D : determinate None
                (pendingTimers (handleCustomerResponse P confirm s)) = true)
    by (rewrite Fp, (proj1 Hq); reflexivity).
  destruct (response_flow confirm s s' o es Hq Sel D Hes Hrun Hq')
    as (A & B & C & _).
  rewrite Fp, (proj1 Hq) in A, B. cbn in A, B.
  unfold ledger in A. injection A as A1 A2 A3.
  rewrite A1, <- !app_assoc. repeat split; auto.
  apply (selected_after_patch s s' o _ Sel C A2).
Qed.

(** X2.  Cancel, from a state with nothing pending: the transcript gains
    the customer line and the agent's confirmation line, the selected order
    becomes cancelled, the outcome is [cancelled] and the call ends
    [resolved]. *)
Theorem cancel_flow (s s' : State) (o : Order) (es : list Event) :
  quiescent s -> selectedOrder s = Some o ->
  forallb isEnvEvent es = true ->
  run P es (handleCustomerResponse P cancel s) = Some s' -> quiescent s' ->
  map content (conversation s') =
    map content (conversation s) ++
    [ (customer, "I want to cancel this order.", None);
      (agent,
       "I understand. I will cancel the order right away and send a confirmation SMS. Thank you for your time.",
       Some false) ] /\
  callState s' = resolved /\
  callOutcome s' = Some cancelled /\
  selectedOrder s' = Some (applyPatch (mkPatch st_cancelled None) o).
Proof.
  intros Hq Sel Hes Hrun Hq'.
  destruct (respond_fields P cancel s o Sel) as (_ & _ & _ & _ & _ & _ & _ & _ & _ & Fp).
  assert (D : determinate None
                (pendingTimers (handleCustomerResponse P cancel s)) = true)
    by (rewrite Fp, (proj1 Hq); reflexivity).
  destruct (response_flow cancel s s' o es Hq Sel D Hes Hrun Hq')
    as (A & B & C & _).
  rewrite Fp, (proj1 Hq) in A, B. cbn in A, B.
  unfold ledger in A. injection A as A1 A2 A3.
  rewrite A1, <- !app_assoc. repeat split; auto.
  apply (selected_after_patch s s' o _ Sel C A2).
Qed.

Lemma query_settles (s s' : State) (o : Order) (es : list Event) :
  quiescent s -> selectedOrder s = Some o ->
  forallb isEnvEvent es = true ->
  run P es (handleCustomerResponse P query s) = Some s' -> quiescent s' ->
  map content (conversation s') =
    map content (conversation s) ++
    [ (customer, "Can you tell me the payment details once more?", None);
      (agent, queryText P o, Some true) ] /\
  callState s' = awaiting_response /\
  callOutcome s' = callOutcome s /\
  orders s' = orders s /\
  rescheduleSlot s' = rescheduleSlot s /\
  selectedOrder s' = Some o.
Proof.
  intros Hq Sel Hes Hrun Hq'.
  destruct (respond_fields P query s o Sel) as (_ & _ & _ & _ & _ & _ & _ & _ & _ & Fp).
  assert (D : determinate None
                (pendingTimers (handleCustomerResponse P query s)) = true)
    by (rewrite Fp, (proj1 Hq); reflexivity).
  destruct (response_flow query s s' o es Hq Sel D Hes Hrun Hq')
    as (A & B & C & E).
  rewrite Fp, (proj1 Hq) in A, B. cbn in A, B.
  unfold ledger in A. injection A as A1 A2 A3.
  rewrite A1, <- !app_assoc. repeat split; auto.
  rewrite <- Sel. apply selectedOrder_ext; assumption.
Qed.

(** X3.  Query, from a state with nothing pending: the agent restates the total
    and the payment method and the call is [awaiting_response] again, with
    the orders, the outcome and the chosen slot as they were.  The agent
    line is the template of the source with the formatted total and the
    payment method in lower case. *)
Theorem query_flow (s s' : State) (o : Order) (es : list Event) :
  quiescent s -> selectedOrder s = Some o ->
  forallb isEnvEvent es = true ->
  run P es (handleCustomerResponse P query s) = Some s' -> quiescent s' ->
  map content (conversation s') =
    map content (conversation s) ++
    [ (customer, "Can you tell me the payment details once more?", None);
      (agent, queryText P o, Some true) ] /\
  callState s' = awaiting_response /\
  callOutcome s' = callOutcome s /\
  orders s' = orders s /\
  rescheduleSlot s' = rescheduleSlot s /\
  selectedOrder s' = Some o /\
  queryText P o =
    ("This order is " ++ formatINR P (total o) ++ " with " ++
     toLowerCase P (paymentMethod o) ++
     ". Would you like to proceed with the same plan?")%string.
Proof.
  intros Hq Sel Hes Hrun Hq'.
  destruct (query_settles s s' o es Hq Sel Hes Hrun Hq')
    as (A & B & C & D & E & F).
  repeat (split; [assumption|]). reflexivity.
Qed.

(** X5.  Reschedule, from a state with nothing pending: the agent offers the
    slots, the outcome is already [rescheduled], the call is
    [awaiting_response], and every slot of the menu can be picked. *)
Theorem reschedule_offer_flow (s s' : State) (o : Order) (es : list Event) :
  quiescent s -> selectedOrder s = Some o ->
  forallb isEnvEvent es = true ->
  run P es (handleCustomerResponse P reschedule s) = Some s' -> quiescent s' ->
  map content (conversation s') =
    map content (conversation s) ++
    [ (customer, "Could we deliver in a different slot?", None);
      (agent,
       "Sure, I can help with that. I have a few delivery slots available, please pick the one that works best for you.",
       Some true) ] /\
  callState s' = awaiting_response /\
  callOutcome s' = Some rescheduled /\
  rescheduleSlot s' = "" /\
  orders s' = orders s /\
  (forall slot, In slot RESCHEDULE_OPTIONS -> enabled (PickSlot slot) s' = true).
Proof.
  intros Hq Sel Hes Hrun Hq'.
  destruct (respond_fields P reschedule s o Sel) as (_ & _ & _ & _ & _ & _ & _ & _ & _ & Fp).
  assert (D : determinate None
                (pendingTimers (handleCustomerResponse P reschedule s)) = true)
    by (rewrite Fp, (proj1 Hq); reflexivity).
  destruct (response_flow reschedule s s' o es Hq Sel D Hes Hrun Hq')
    as (A & B & C & E).
  rewrite Fp, (proj1 Hq) in A, B. cbn in A, B.
  unfold ledger in A. injection A as A1 A2 A3.
  rewrite A1, <- !app_assoc. repeat split; auto.
  intros slot Hin. cbn [enabled].
  assert (Sel' : selectedOrder s' = Some o)
    by (rewrite <- Sel; apply selectedOrder_ext; assumption).
  rewrite Sel', A3, E. cbn [isSome isRescheduled andb].
  rewrite String.eqb_refl. cbn [andb].
  unfold memString. apply existsb_exists. exists slot. split; [exact Hin|].
  apply String.eqb_refl.
Qed.

(** X6.  A slot picked from a state with nothing pending: the transcript gains
    the customer line and the two agent lines, and the call ends [resolved]
    with outcome [rescheduled] and the order confirmed for that slot.  The
    customer line and the first agent line are the templates of the source
    with the slot filled in. *)
Theorem slot_flow (s s' : State) (o : Order) (slot : string)
    (es : list Event) :
  quiescent s -> selectedOrder s = Some o ->
  forallb isEnvEvent es = true ->
  run P es (handleRescheduleSelection slot s) = Some s' -> quiescent s' ->
  map content (conversation s') =
    map content (conversation s) ++
    [ (customer, slotCustomerText slot, None);
      (agent, slotAgentText slot, Some false);
      (agent, "Thanks for confirming. Have a great day!", Some false) ] /\
  callState s' = resolved /\
  callOutcome s' = Some rescheduled /\
  rescheduleSlot s' = slot /\
  selectedOrder s' = Some (applyPatch (mkPatch st_confirmed (Some slot)) o) /\
  slotCustomerText slot = ("Let's move it to " ++ slot ++ ".")%string /\
  slotAgentText slot =
    ("Done, I have rescheduled your delivery to " ++ slot ++
     ". You will receive a confirmation SMS shortly.")%string.
Proof.
  intros Hq Sel Hes Hrun Hq'.
  destruct (handleRescheduleSelection_fields slot s o Sel)
    as (Fc & Fr & Fst & Fout & Fo & Fs & Fp).
  destruct Hq as (Qp & Qa & Qi).
  set (s1 := handleRescheduleSelection slot s) in *.
  assert (L : lastCallback s1 = None).
  { unfold lastCallback, s1, handleRescheduleSelection. rewrite Sel.
    destruct s as [os sid cv cs co rs am tr pt nid au it ck].
    revert Qa Qi. fields_red. intros -> ->. reflexivity. }
  rewrite Qp in Fp. cbn [app] in Fp.
  assert (S : StronglySorted (fun a b => due a <= due b) (pendingTimers s1))
    by (rewrite Fp; sorted_timers).
  assert (D : determinate None (pendingTimers s1) = true)
    by (rewrite Fp; reflexivity).
  destruct (flow P es s1 s' L S D Hes Hrun Hq') as (A & B & C & E & _).
  rewrite Fp in A, B. unfold ledger in A. rewrite Fc, Fo, Fout, map_app in A.
  cbn in A, B. injection A as A1 A2 A3.
  rewrite A1, <- !app_assoc.
  split; [reflexivity|]. split; [exact B|]. split; [congruence|].
  split; [congruence|].
  split; [apply (selected_after_patch s s' o _ Sel); congruence|].
  split; reflexivity.
Qed.

(** X4.  The query response can be repeated without end: after any number of
    rounds the call is still awaiting a response, nothing was decided, and
    the transcript has grown by two lines a round. *)
Theorem query_rounds (n : nat) (s s' : State) (o : Order) :
  queryRounds P n s s' ->
  quiescent s -> selectedOrder s = Some o ->
  List.length (conversation s') = (List.length (conversation s) + 2 * n)%nat /\
  callOutcome s' = callOutcome s /\
  orders s' = orders s /\
  selectedOrder s' = Some o /\
  quiescent s' /\
  (n <> O -> callState s' = awaiting_response).
Proof.
  induction 1 as [s|n s s1 s2 es Hes Hrun Hq1 Hr IH]; intros Hq Sel.
  - rewrite Nat.add_0_r. repeat split; auto; try apply Hq. congruence.
  - destruct (query_settles s s1 o es Hq Sel Hes Hrun Hq1)
      as (A & B & C & D & _ & F).
    destruct (IH Hq1 F) as (A' & B' & C' & D' & E' & F').
    apply (f_equal (@List.length _)) in A.
    rewrite length_app, !length_map in A. cbn [List.length] in A.
    repeat split; try congruence; try apply E'.
    + rewrite A'. lia.
    + intros _. destruct n as [|n]; [|apply F'; discriminate].
      inversion Hr; subst. exact B.
Qed.

End Flows.

(** ** The registry and the pending completions *)

Lemma map_identity_patch (k : string) (p : OrderPatch) (l : list Order) :
  map identity
    (map (fun o => if String.eqb (id o) k then applyPatch p o else o) l)
  = map identity l.
Proof.
  induction l as [|o l IH]; simpl; [reflexivity|].
  rewrite IH. destruct (String.eqb (id o) k); reflexivity.
Qed.

Lemma identity_ids (l l' : list Order) :
  map identity l' = map identity l -> map id l' = map id l.
Proof.
  revert l'. induction l as [|o l IH]; intros [|o' l'] H; simpl in *;
    try discriminate; [reflexivity|].
  inversion H as [[Hid H2 H3 H4 H5 H6 H7 H8 Hl]].
  rewrite (IH l' Hl). reflexivity.
Qed.

Lemma find_in_ids (k : string) (l : list Order) :
  In k (map id l) -> exists o, find (fun o => String.eqb (id o) k) l = Some o.
Proof.
  induction l as [|o l IH]; simpl; [intros []|].
  destruct (String.eqb (id o) k) eqn:E; [eauto|].
  intros [H|H]; [|auto]. apply String.eqb_neq in E. congruence.
Qed.

Section Registry.
Variable P : Platform.

Lemma identity_step (e : Event) (s : State) :
  map identity (orders (handle P e s)) = map identity (orders s).
Proof.
  destruct s as [os sid cv cs co rs am tr pt nid au it ck].
  destruct e; handler_cases P; try reflexivity; apply map_identity_patch.
Qed.

Lemma selection_step (e : Event) (s : State) :
  selectedOrderId (handle P e s) = selectedOrderId s \/
  exists oid, e = SelectOrder oid /\ selectedOrderId (handle P e s) = Some oid.
Proof.
  destruct s as [os sid cv cs co rs am tr pt nid au it ck].
  destruct e; handler_cases P; eauto.
Qed.

Lemma selectionOk_step (e : Event) (s : State) :
  enabled e s = true -> selectionOk s -> selectionOk (handle P e s).
Proof.
  intros En H. unfold selectionOk in *.
  pose proof (identity_ids _ _ (identity_step e s)) as Hid.
  destruct (selection_step e s) as [E|(oid & -> & E)]; rewrite E.
  - destruct (selectedOrderId s); [rewrite Hid; exact H|].
    rewrite H in Hid. destruct (orders (handle P e s)); [reflexivity|discriminate].
  - rewrite Hid. cbn [enabled] in En. unfold memString in En.
    apply existsb_exists in En as (x & Hx & Ex).
    apply String.eqb_eq in Ex. subst x. exact Hx.
Qed.

End Registry.

Section Completions.
Variable P : Platform.

Lemma startCall_fields (s : State) (o : Order) :
  tracked s -> selectedOrder s = Some o ->
  pendingTimers (startCall P s) =
    [ mkTimer (nextTimeoutId s) (clock s + introDelay)
        (AgentLine (introText P o) (mkOptions (Some false) None));
      mkTimer (nextTimeoutId s + 1) (clock s + (introDelay + 2200))
        (AgentLine (itemsText P o) (mkOptions (Some true) None)) ] /\
  selectedOrderId (startCall P s) = selectedOrderId s /\
  orders (startCall P s) = orders s /\
  agentMuted (startCall P s) = agentMuted s /\
  rescheduleSlot (startCall P s) = "" /\
  callOutcome (startCall P s) = None.
Proof.
  intros T Sel. apply filter_tracked_nil in T. revert T.
  unfold startCall. rewrite Sel.
  destruct s as [os sid cv cs co rs am tr pt nid au it ck].
  destruct (isBrowser P) eqn:B; full_red; rewrite ?B; full_red;
    intros T; [destruct au; full_red|]; rewrite T; repeat split; reflexivity.
Qed.

Lemma selected_id (s : State) (o : Order) :
  selectedOrder s = Some o -> selectedOrderId s = Some (id o).
Proof.
  unfold selectedOrder. destruct (selectedOrderId s) as [k|]; [|discriminate].
  intros H. apply find_id in H. congruence.
Qed.

Lemma timersOk_app (s s' : State) (new : list Timer) :
  timersOk s -> selectedOrderId s' = selectedOrderId s ->
  pendingTimers s' = pendingTimers s ++ new ->
  (forall t, In t new -> timerOk (selectedOrderId s) t) ->
  timersOk s'.
Proof.
  intros H Es Ep Hn t Ht. rewrite Es. rewrite Ep in Ht.
  apply in_app_or in Ht as [Ht|Ht]; auto.
Qed.

Lemma timersOk_same (s s' : State) :
  timersOk s -> selectedOrderId s' = selectedOrderId s ->
  (forall t, In t (pendingTimers s') -> In t (pendingTimers s)) ->
  timersOk s'.
Proof. intros H Es Hp t Ht. rewrite Es. apply H, Hp, Ht. Qed.

Lemma timersOk_step (e : Event) (s : State) :
  wf P s -> timersOk s -> enabled e s = true -> timersOk (handle P e s).
Proof.
  intros W H En. pose proof W as (T & _).
  destruct e; cbn [handle].
  - (* SelectOrder *)
    unfold selectOrder. destruct (callInFlight s); [exact H|].
    intros t Ht.
    assert (T' : tracked (setSelectedOrderId (Some oid) s))
      by (destruct s; exact T).
    destruct (resetCall_fields P _ T') as (_ & _ & _ & _ & E & _).
    rewrite E in Ht. destruct Ht.
  - (* StartCall *)
    destruct (selectedOrder s) as [o|] eqn:Sel.
    + destruct (startCall_fields s o T Sel) as (Ep & Es & _).
      intros t Ht. rewrite Ep in Ht.
      destruct Ht as [<-|[<-|[]]]; exact I.
    + unfold startCall. rewrite Sel. exact H.
  - (* ToggleMute *)
    apply (timersOk_same s); [exact H| |];
      destruct s as [os sid cv cs co rs am tr pt nid au it ck];
      unfold agentMutedEffect, toggleMute;
      destruct (isBrowser P) eqn:B; full_red; rewrite ?B;
      repeat (split_guard; full_red); auto.
  - (* EndCall *)
    intros t Ht. destruct (resetCall_fields P s T) as (_ & _ & _ & _ & E & _).
    rewrite E in Ht. destruct Ht.
  - (* Escalate *)
    apply (timersOk_same s); [exact H| |];
      unfold escalateToSupport; destruct (selectedOrder s); auto;
      destruct s; reflexivity || auto.
  - (* Respond *)
    destruct (selectedOrder s) as [o|] eqn:Sel.
    + destruct (respond_fields P type s o Sel)
        as (_ & _ & Fs & _ & _ & _ & _ & _ & _ & Fp).
      apply (timersOk_app s _ _ H Fs Fp).
      rewrite (selected_id s o Sel).
      intros t Ht. destruct type; cbn in Ht;
        repeat (destruct Ht as [<-|Ht]; [try exact I|]); try destruct Ht;
        exists o; repeat split; reflexivity.
    + unfold handleCustomerResponse. rewrite Sel. exact H.
  - (* PickSlot *)
    destruct (selectedOrder s) as [o|] eqn:Sel.
    + destruct (handleRescheduleSelection_fields slot s o Sel)
        as (_ & _ & _ & _ & _ & Fs & Fp).
      apply (timersOk_app s _ _ H Fs Fp).
      rewrite (selected_id s o Sel).
      cbn [enabled] in En. apply andb_prop in En as [_ En].
      unfold memString in En. apply existsb_exists in En as (x & Hx & Ex).
      apply String.eqb_eq in Ex. subst x.
      intros t Ht.
      repeat (destruct Ht as [<-|Ht]; [try exact I|]); try destruct Ht.
      exists o. repeat split; try reflexivity. exact Hx.
    + unfold handleRescheduleSelection. rewrite Sel. exact H.
  - (* Elapse *)
    apply (timersOk_same s); [exact H| |]; destruct s; auto.
  - (* Fire *)
    apply (timersOk_same s); [exact H| |].
    + apply (env_keeps P Fire s eq_refl).
    + apply (env_pending P Fire s eq_refl).
  - (* SpeechEnd *)
    apply (timersOk_same s); [exact H| |].
    + apply (env_keeps P SpeechEnd s eq_refl).
    + apply (env_pending P SpeechEnd s eq_refl).
  - (* SpeechInterrupted *)
    apply (timersOk_same s); [exact H| |].
    + apply (env_keeps P SpeechInterrupted s eq_refl).
    + apply (env_pending P SpeechInterrupted s eq_refl).
Qed.

Lemma reachable_timersOk (s : State) : reachable P s -> timersOk s.
Proof.
  intros [es H].
  refine (proj2 (run_invariant P (fun x => wf P x /\ timersOk x) _ es
                   (init P) s _ H)).
  - intros e x [W K] En. split; [apply wf_step, W|apply timersOk_step; auto].
  - split; [apply wf_init|intros t []].
Qed.

Lemma reachable_selectionOk (s : State) : reachable P s -> selectionOk s.
Proof.
  intros [es H].
  refine (run_invariant P selectionOk _ es (init P) s _ H).
  - intros e x K En. apply selectionOk_step; auto.
  - unfold selectionOk, init. cbn. destruct (initialOrders P); cbn; auto.
Qed.

(** What a step does to the registry: nothing, or the completion of a call
    for the selected order. *)
Lemma orders_step (e : Event) (s : State) :
  timersOk s ->
  orders (handle P e s) = orders s \/
  exists o out p,
    selectedOrderId s = Some (id o) /\ completionOk out p /\
    orders (handle P e s) =
      map (fun x => if String.eqb (id x) (id o) then applyPatch p x else x)
        (orders s) /\
    callOutcome (handle P e s) = Some out /\
    callState (handle P e s) = resolved /\
    selectedOrderId (handle P e s) = selectedOrderId s.
Proof.
  intros K.
  assert (Hcases : (e = Fire \/ e = Escalate) \/
                   orders (handle P e s) = orders s).
  { destruct e; auto; right;
      destruct s as [os sid cv cs co rs am tr pt nid au it ck];
      handler_cases P; reflexivity. }
  destruct Hcases as [[->| ->]|Ho]; [| |left; exact Ho].
  - cbn [handle]. unfold fireTimer.
    destruct (pickNext (pendingTimers s)) as [[t rest]|] eqn:Ep; [|auto].
    assert (Ht : In t (pendingTimers s))
      by (apply (pickNext_In _ _ _ Ep); auto).
    specialize (K t Ht). unfold timerOk in K.
    destruct (action t) as [text o|c out p]; cbn [runTimer].
    + left. destruct s as [os sid cv cs co rs am tr pt nid au it ck].
      unfold agentLineCallback, addMessage, speak. rewrite !onEnd_state.
      destruct (isBrowser P); full_red; [destruct au; full_red|]; reflexivity.
    + destruct K as (o & -> & Hs & Hc). right. exists o, out, p.
      destruct s as [os sid cv cs co rs am tr pt nid au it ck].
      full_red. split; [exact Hs|]. split; [exact Hc|]. repeat split.
  - cbn [handle]. unfold escalateToSupport.
    destruct (selectedOrder s) as [o|] eqn:Sel; [|auto].
    right. exists o, needs_support, (mkPatch st_requires_followup None).
    pose proof (selected_id s o Sel).
    destruct s as [os sid cv cs co rs am tr pt nid au it ck].
    full_red. split; [assumption|]. repeat split.
Qed.

End Completions.

Lemma nth_error_patch (k : string) (p : OrderPatch) (l : list Order) (n : nat) :
  nth_error
    (map (fun x => if String.eqb (id x) k then applyPatch p x else x) l) n
  = option_map (fun x => if String.eqb (id x) k then applyPatch p x else x)
      (nth_error l n).
Proof. apply nth_error_map. Qed.

Lemma find_patched (k : string) (p : OrderPatch) (l : list Order) (o' : Order) :
  find (fun x => String.eqb (id x) k)
       (map (fun x => if String.eqb (id x) k then applyPatch p x else x) l)
    = Some o' ->
  status o' = patchStatus p.
Proof.
  induction l as [|x l IH]; simpl; [discriminate|].
  destruct (String.eqb (id x) k) eqn:E; simpl; rewrite E; [|exact IH].
  intros H. injection H as <-. reflexivity.
Qed.

Lemma Forall2_slotOk_patch (k : string) (out : CallOutcome) (p : OrderPatch)
    (l0 l : list Order) :
  completionOk out p -> Forall2 slotOk l0 l ->
  Forall2 slotOk l0
    (map (fun x => if String.eqb (id x) k then applyPatch p x else x) l).
Proof.
  intros [_ Hp]. induction 1 as [|a b l0 l Hab Hl IH]; simpl; constructor; auto.
  destruct (String.eqb (id b) k); [|exact Hab].
  unfold slotOk in *. cbn [applyPatch deliverySlot].
  destruct (patchDeliverySlot p); auto.
Qed.

Lemma Forall2_slotOk_refl (l : list Order) : Forall2 slotOk l l.
Proof. induction l; constructor; auto. left. reflexivity. Qed.

Section Extras.
Variable P : Platform.

Lemma completion_commit (s : State) (o x : Order) (i d : Z)
    (out : CallOutcome) (p : OrderPatch) :
  selectedOrder s = Some x -> id x = id o ->
  In (mkTimer i d (CompleteCall (Some o) out p)) (pendingTimers s) ->
  eventually P s (resolvedAs (id o) out (patchStatus p)).
Proof.
  intros Sel Hid Hin es s4 Hes Hrun Hp.
  destruct (timer_eventually_fires P es s s4 _ Hes Hrun Hp Hin)
    as (es1 & es2 & sb & rest & -> & He1 & Hr1 & Hpick & Hfire).
  pose proof (env_run_keeps P es1 s sb He1 Hr1) as K.
  destruct (keeps_selected s sb x K Sel) as (y & Hy & Hidy).
  exists (es1 ++ [Fire]), es2, (runTimer P (CompleteCall (Some o) out p)
                                  (setPendingTimers rest sb)).
  split; [rewrite <- app_assoc; reflexivity|]. split; [exact Hfire|].
  assert (Hy' : selectedOrder (setPendingTimers rest sb) = Some y).
  { rewrite <- Hy. apply selectedOrder_ext; destruct sb; reflexivity. }
  destruct (completeCall_selected (setPendingTimers rest sb) o y out p Hy'
              ltac:(congruence)) as (A & B & C & _).
  exists (applyPatch p y). cbn [runTimer].
  repeat split; auto. cbn. congruence.
Qed.

Lemma slot_step (e : Event) (s : State) :
  rescheduleSlot (handle P e s) = rescheduleSlot s \/
  rescheduleSlot (handle P e s) = "" \/
  exists slot, e = PickSlot slot /\ rescheduleSlot (handle P e s) = slot.
Proof.
  destruct s as [os sid cv cs co rs am tr pt nid au it ck].
  destruct e; handler_cases P; eauto.
Qed.

Lemma mute_step (e : Event) (s : State) :
  e <> ToggleMute -> agentMuted (handle P e s) = agentMuted s.
Proof.
  destruct s as [os sid cv cs co rs am tr pt nid au it ck].
  destruct e; try congruence; intros _; handler_cases P; reflexivity.
Qed.

End Extras.

(** ** Properties *)

Section MoreProperties.
Variable P : Platform.

(** X7.  Confirm, from any state with a selected order [o]: every execution of
    browser events that empties the timer table passes through a state
    where that order is confirmed and the call is resolved as confirmed. *)
Theorem confirm_eventually (s : State) (o : Order) :
  selectedOrder s = Some o ->
  completes P (handleCustomerResponse P confirm s) /\
  eventually P (handleCustomerResponse P confirm s)
    (resolvedAs (id o) confirmed st_confirmed).
Proof.
  intros Sel. split; [apply completes_any|].
  destruct (respond_fields P confirm s o Sel)
    as (_ & Fo & Fs & _ & _ & _ & _ & _ & _ & Fp).
  apply (completion_commit P _ o o (nextTimeoutId s + 1 + 1) (clock s + 2500)
           confirmed (mkPatch st_confirmed None)).
  - rewrite <- Sel. apply selectedOrder_ext; assumption.
  - reflexivity.
  - rewrite Fp. apply in_or_app. right. simpl. auto.
Qed.

(** X8.  Cancel, from any state with a selected order [o]: every execution of
    browser events that empties the timer table passes through a state
    where that order is cancelled and the call is resolved as cancelled. *)
Theorem cancel_eventually (s : State) (o : Order) :
  selectedOrder s = Some o ->
  completes P (handleCustomerResponse P cancel s) /\
  eventually P (handleCustomerResponse P cancel s)
    (resolvedAs (id o) cancelled st_cancelled).
Proof.
  intros Sel. split; [apply completes_any|].
  destruct (respond_fields P cancel s o Sel)
    as (_ & Fo & Fs & _ & _ & _ & _ & _ & _ & Fp).
  apply (completion_commit P _ o o (nextTimeoutId s + 1) (clock s + 1400)
           cancelled (mkPatch st_cancelled None)).
  - rewrite <- Sel. apply selectedOrder_ext; assumption.
  - reflexivity.
  - rewrite Fp. apply in_or_app. right. simpl. auto.
Qed.

(** X9.  Whatever the timing of the speech callbacks, once the timer table is
    empty the transcript (without timestamps), the orders and the outcome
    are those obtained by running the pending callbacks in firing order:
    by due time, and by registration among equal due times.  The selection,
    the chosen slot and the mute flag are as before. *)
Theorem script_result_independent_of_speech (s s' : State) (es : list Event) :
  forallb isEnvEvent es = true -> run P es s = Some s' ->
  pendingTimers s' = [] ->
  (map content (conversation s'), orders s', callOutcome s') =
    fold_left settleTimer (fireOrder (pendingTimers s))
      (map content (conversation s), orders s, callOutcome s) /\
  selectedOrderId s' = selectedOrderId s /\
  rescheduleSlot s' = rescheduleSlot s /\
  agentMuted s' = agentMuted s.
Proof. intros Hes Hrun Hp. exact (drain_ledger P es s s' Hes Hrun Hp). Qed.

(** X10.  With no speech callback outstanding at the start, and every call
    completion of the table coming after a line that marks the call
    resolved, the state indicator at the end is the one left by the last
    callback in firing order: the [onEnd] state of an agent line,
    [resolved] for a completion. *)
Theorem final_indicator (s s' : State) (es : list Event) :
  activeUtterance s = None -> interrupted s = [] ->
  determinate None (fireOrder (pendingTimers s)) = true ->
  forallb isEnvEvent es = true -> run P es s = Some s' -> quiescent s' ->
  callState s' =
    fold_left settleState (fireOrder (pendingTimers s)) (callState s).
Proof.
  intros Ha Hi D Hes Hrun Hq.
  assert (L : lastCallback s = None)
    by (unfold lastCallback; rewrite Ha, Hi; reflexivity).
  pose proof (drain_state P es s s' None Hes Hrun Hq (or_introl L) D) as X.
  rewrite L in X. exact X.
Qed.

(** X11.  Reset is idempotent on every state. *)
Theorem reset_idempotent (s : State) :
  resetCall P (resetCall P s) = resetCall P s.
Proof.
  destruct s as [os sid cv cs co rs am tr pt nid au it ck].
  destruct (isBrowser P) eqn:B; unfold resetCall, stop; rewrite B;
    full_red; [destruct au; full_red|];
    match goal with
    | |- context [filter ?f (filter ?g ?l)] =>
        replace (filter f (filter g l)) with (filter g l)
          by (symmetry; apply forallb_filter_id, forallb_forall; reflexivity)
    end; reflexivity.
Qed.

(** X12.  The registry never gains, loses or reorders an order, and no field of
    an order other than its status and delivery slot ever changes. *)
Theorem registry_identity (s : State) :
  reachable P s ->
  map identity (orders s) = map identity (initialOrders P).
Proof.
  intros [es H].
  refine (run_invariant P
            (fun x => map identity (orders x) = map identity (initialOrders P))
            _ es (init P) s eq_refl H).
  intros e x Hx _. rewrite identity_step. exact Hx.
Qed.

(** X13.  When the page has orders, an order of the registry is always
    selected. *)
Theorem selection_names_an_order (s : State) :
  reachable P s -> initialOrders P <> [] ->
  exists o, selectedOrder s = Some o /\ In o (orders s).
Proof.
  intros R Hne. pose proof (reachable_selectionOk P s R) as K.
  assert (Hid : map id (orders s) = map id (initialOrders P)).
  { destruct R as [es H].
    refine (run_invariant P
              (fun x => map id (orders x) = map id (initialOrders P))
              _ es (init P) s eq_refl H).
    intros e x Hx _. rewrite <- Hx. apply identity_ids, identity_step. }
  unfold selectionOk, selectedOrder in *.
  destruct (selectedOrderId s) as [k|].
  - destruct (find_in_ids k _ K) as [o Ho]. exists o. split; [exact Ho|].
    apply find_some in Ho. apply Ho.
  - rewrite K in Hid. destruct (initialOrders P); [congruence|discriminate].
Qed.

(** X14.  A step never rewrites an order other than the selected one. *)
Theorem only_selected_order_rewritten (s s' : State) (e : Event) (n : nat)
    (o : Order) :
  reachable P s -> step P e s = Some s' ->
  nth_error (orders s) n = Some o ->
  selectedOrderId s <> Some (id o) ->
  nth_error (orders s') n = Some o.
Proof.
  intros R Hstep Hn Hsel. apply step_inv in Hstep as [_ ->].
  destruct (orders_step P e s (reachable_timersOk P s R))
    as [E|(c & out & p & Hs & _ & E & _)]; rewrite E; [exact Hn|].
  rewrite nth_error_patch, Hn. cbn [option_map].
  destruct (String.eqb (id o) (id c)) eqn:Q; [|reflexivity].
  apply String.eqb_eq in Q. congruence.
Qed.

(** X15.  The registry changes only in a step that resolves the call, and the
    selected order then has the status of the outcome: confirmed for
    [confirmed] and [rescheduled], cancelled for [cancelled],
    requires_followup for [needs_support]. *)
Theorem status_follows_outcome (s s' : State) (e : Event) :
  reachable P s -> step P e s = Some s' -> orders s' <> orders s ->
  callState s' = resolved /\
  exists out, callOutcome s' = Some out /\
              forall o', selectedOrder s' = Some o' ->
                         status o' = statusFor out.
Proof.
  intros R Hstep Hne. apply step_inv in Hstep as [_ ->].
  destruct (orders_step P e s (reachable_timersOk P s R))
    as [E|(c & out & p & Hs & [Hp _] & E & Ho & Hc & Hsel)]; [congruence|].
  split; [exact Hc|]. exists out. split; [exact Ho|].
  intros o'. unfold selectedOrder. rewrite Hsel, Hs, E.
  intros H. rewrite <- Hp. exact (find_patched _ _ _ _ H).
Qed.

(** X16.  No step sets an order back to pending: an order that is pending after
    a step was the same order before it. *)
Theorem never_back_to_pending (s s' : State) (e : Event) (n : nat)
    (o' : Order) :
  reachable P s -> step P e s = Some s' ->
  nth_error (orders s') n = Some o' -> status o' = st_pending ->
  nth_error (orders s) n = Some o'.
Proof.
  intros R Hstep Hn Hst. apply step_inv in Hstep as [_ ->].
  destruct (orders_step P e s (reachable_timersOk P s R))
    as [E|(c & out & p & _ & [Hp _] & E & _)]; rewrite E in Hn; [exact Hn|].
  rewrite nth_error_patch in Hn.
  destruct (nth_error (orders s) n) as [x|]; [|discriminate].
  cbn [option_map] in Hn. injection Hn as Hx.
  destruct (String.eqb (id x) (id c)); [|congruence].
  subst o'. cbn [applyPatch status] in Hst. rewrite Hp in Hst.
  destruct out; discriminate.
Qed.

(** X17.  Through the page, the delivery slot of an order is always its seed slot
    or one of the four slots of the menu, and so is the chosen slot when it
    is set. *)
Theorem delivery_slot_from_menu (s : State) :
  reachable P s ->
  Forall2 slotOk (initialOrders P) (orders s) /\
  (rescheduleSlot s = "" \/ In (rescheduleSlot s) RESCHEDULE_OPTIONS).
Proof.
  intros [es H].
  refine (proj2 (run_invariant P
            (fun x => (wf P x /\ timersOk x) /\
                      Forall2 slotOk (initialOrders P) (orders x) /\
                      (rescheduleSlot x = "" \/
                       In (rescheduleSlot x) RESCHEDULE_OPTIONS))
            _ es (init P) s _ H)).
  - intros e x ((W & K) & F & S) En.
    split; [split; [apply wf_step, W|apply timersOk_step; auto]|]. split.
    + destruct (orders_step P e x K) as [E|(c & out & p & _ & Hc & E & _)];
        rewrite E; [exact F|].
      apply (Forall2_slotOk_patch _ out); assumption.
    + destruct (slot_step P e x) as [E|[E|(slot & -> & E)]]; rewrite E; auto.
      right. cbn [enabled] in En. apply andb_prop in En as [_ En].
      unfold memString in En. apply existsb_exists in En as (y & Hy & Ey).
      apply String.eqb_eq in Ey. subst y. exact Hy.
  - split; [split; [apply wf_init|intros t []]|].
    split; [apply Forall2_slotOk_refl|left; reflexivity].
Qed.

(** X18.  An order button does nothing while a call is in flight; otherwise it
    selects its order and clears the call (transcript, state, outcome, slot
    and every pending timer), leaving the registry as it is. *)
Theorem select_order_switches_and_resets (s : State) (oid : string) :
  reachable P s ->
  (callInFlight s = true -> handle P (SelectOrder oid) s = s) /\
  (callInFlight s = false ->
   selectedOrderId (handle P (SelectOrder oid) s) = Some oid /\
   conversation (handle P (SelectOrder oid) s) = [] /\
   callState (handle P (SelectOrder oid) s) = idle /\
   callOutcome (handle P (SelectOrder oid) s) = None /\
   rescheduleSlot (handle P (SelectOrder oid) s) = "" /\
   pendingTimers (handle P (SelectOrder oid) s) = [] /\
   orders (handle P (SelectOrder oid) s) = orders s).
Proof.
  intros R. apply reachable_wf in R as (T & _).
  cbn [handle]. unfold selectOrder.
  split; intros ->; [reflexivity|].
  assert (T' : tracked (setSelectedOrderId (Some oid) s))
    by (destruct s; exact T).
  destruct (resetCall_fields P _ T') as (A & B & C & D & E & _ & G & H & _).
  repeat split; auto; rewrite ?G, ?H; destruct s; reflexivity.
Qed.

(** X19.  Without speech synthesis an agent line is delivered as it is with
    speech synthesis once its utterance has ended. *)
Theorem silent_line_is_spoken_line_ended (s : State) (text : string)
    (options : LineOptions) :
  activeUtterance s = None ->
  agentLineCallback (withSpeech false P) text options s =
  speechEnd (agentLineCallback (withSpeech true P) text options s).
Proof.
  destruct s as [os sid cv cs co rs am tr pt nid au it ck].
  fields_red. intros ->.
  unfold agentLineCallback, addMessage, speak.
  cbn [isBrowser withSpeech negb].
  destruct options as [[[|]|] [[|]|]]; full_red; reflexivity.
Qed.

(** X20.  The mute flag is changed by the mute button only: it survives End Call,
    a new call, a change of order and every browser event. *)
Theorem mute_flag_only_toggled (es : list Event) (s s' : State) :
  forallb (fun e => negb (isToggle e)) es = true ->
  run P es s = Some s' -> agentMuted s' = agentMuted s.
Proof.
  revert s. induction es as [|e es IH]; simpl; intros s Hes Hrun.
  - inversion Hrun; reflexivity.
  - apply andb_prop in Hes as [He Hes].
    destruct (step P e s) as [s1|] eqn:E; [|discriminate].
    apply step_inv in E as [_ ->].
    rewrite (IH _ Hes Hrun). apply mute_step.
    intros ->. discriminate He.
Qed.

(** X21.  Muting does not silence the lines that follow: with speech synthesis,
    an agent line that fires while the agent is muted is still handed to
    the speech queue, and the state indicator leaves [muted]. *)
Theorem muted_line_is_still_spoken (s : State) (t : Timer)
    (rest : list Timer) (text : string) (options : LineOptions) :
  isBrowser P = true -> agentMuted s = true ->
  pickNext (pendingTimers s) = Some (t, rest) ->
  action t = AgentLine text options ->
  activeUtterance (handle P Fire s) = Some options /\
  callState (handle P Fire s) = speaking /\
  agentMuted (handle P Fire s) = true /\
  conversation (handle P Fire s) =
    conversation s ++
    [mkEntry agent text (clock s) (optAwaitingResponse options)].
Proof.
  intros B M Ep Ea. rewrite (fireTimer_pick P s t rest Ep), Ea.
  cbn [runTimer]. unfold agentLineCallback, addMessage, speak. rewrite B.
  revert M. destruct s as [os sid cv cs co rs am tr pt nid au it ck].
  full_red. intros ->. destruct au; full_red; auto.
Qed.

(** X22.  The chips of an order button and its "+n more" chip account for every
    item of the order, and the "+n more" chip is absent exactly when every
    item has its chip. *)
Theorem chips_account_for_items (o : Order) :
  (List.length (itemChips P o)
   + match moreBadge o with Some n => n | None => 0 end
   = List.length (items o))%nat /\
  (moreBadge o = None <->
   List.length (itemChips P o) = List.length (items o)) /\
  (forall n, moreBadge o = Some n -> (0 < n)%nat).
Proof.
  unfold itemChips, moreBadge. rewrite length_map, length_firstn.
  destruct (Nat.ltb 3 (List.length (items o))) eqn:E.
  - apply Nat.ltb_lt in E. repeat split; try lia; try discriminate.
    intros n H. injection H as <-. lia.
  - apply Nat.ltb_ge in E. repeat split; try lia; discriminate.
Qed.

End MoreProperties.

(** ** Concrete executions of the further properties *)

(** X1 on a concrete execution. *)
Lemma confirm_flow_witness :
  quiescent (after voiced voicedOpening) /\
  selectedOrder (after voiced voicedOpening) = Some demoOrder1 /\
  run voiced confirmRun
    (handleCustomerResponse voiced confirm (after voiced voicedOpening))
  = Some (after voiced (voicedOpening ++ Respond confirm :: confirmRun)) /\
  callState (after voiced (voicedOpening ++ Respond confirm :: confirmRun))
  = resolved /\
  callOutcome (after voiced (voicedOpening ++ Respond confirm :: confirmRun))
  = Some confirmed.
Proof.
  assert (Q : quiescent (after voiced voicedOpening))
    by (repeat split; reflexivity).
  assert (R : run voiced confirmRun
                (handleCustomerResponse voiced confirm
                   (after voiced voicedOpening))
              = Some (after voiced
                        (voicedOpening ++ Respond confirm :: confirmRun)))
    by (vm_compute; reflexivity).
  split; [exact Q|]. split; [reflexivity|]. split; [exact R|].
  destruct (confirm_flow voiced _ _ demoOrder1 confirmRun Q eq_refl eq_refl R
              ltac:(repeat split; reflexivity)) as (_ & A & B & _).
  split; [exact A|exact B].
Defined.

(** X2 on a concrete execution. *)
Lemma cancel_flow_witness :
  quiescent (after silent openingDone) /\
  selectedOrder (after silent openingDone) = Some demoOrder1 /\
  run silent cancelRun
    (handleCustomerResponse silent cancel (after silent openingDone))
  = Some (after silent (openingDone ++ Respond cancel :: cancelRun)) /\
  callState (after silent (openingDone ++ Respond cancel :: cancelRun))
  = resolved /\
  option_map status
    (selectedOrder (after silent (openingDone ++ Respond cancel :: cancelRun)))
  = Some st_cancelled.
Proof.
  assert (Q : quiescent (after silent openingDone))
    by (repeat split; reflexivity).
  assert (R : run silent cancelRun
                (handleCustomerResponse silent cancel (after silent openingDone))
              = Some (after silent (openingDone ++ Respond cancel :: cancelRun)))
    by (vm_compute; reflexivity).
  split; [exact Q|]. split; [reflexivity|]. split; [exact R|].
  destruct (cancel_flow silent _ _ demoOrder1 cancelRun Q eq_refl eq_refl R
              ltac:(repeat split; reflexivity)) as (_ & A & _ & C).
  split; [exact A|]. rewrite C. reflexivity.
Defined.

(** X3 on a concrete execution. *)
Lemma query_flow_witness :
  quiescent (after silent openingDone) /\
  selectedOrder (after silent openingDone) = Some demoOrder1 /\
  run silent queryRun
    (handleCustomerResponse silent query (after silent openingDone))
  = Some (after silent (openingDone ++ Respond query :: queryRun)) /\
  callState (after silent (openingDone ++ Respond query :: queryRun))
  = awaiting_response /\
  callOutcome (after silent (openingDone ++ Respond query :: queryRun))
  = None.
Proof.
  assert (Q : quiescent (after silent openingDone))
    by (repeat split; reflexivity).
  assert (R : run silent queryRun
                (handleCustomerResponse silent query (after silent openingDone))
              = Some (after silent (openingDone ++ Respond query :: queryRun)))
    by (vm_compute; reflexivity).
  split; [exact Q|]. split; [reflexivity|]. split; [exact R|].
  destruct (query_flow silent _ _ demoOrder1 queryRun Q eq_refl eq_refl R
              ltac:(repeat split; reflexivity)) as (_ & A & B & _).
  split; [exact A|exact B].
Defined.

(** X4 on a concrete execution. *)
Lemma query_rounds_witness :
  queryRounds silent 2 (after silent openingDone)
    (after silent
       (openingDone ++ Respond query :: queryRun ++ Respond query :: queryRun)) /\
  callState
    (after silent
       (openingDone ++ Respond query :: queryRun ++ Respond query :: queryRun))
  = awaiting_response /\
  List.length
    (conversation
       (after silent
          (openingDone ++ Respond query :: queryRun ++ Respond query :: queryRun)))
  = 7%nat.
Proof.
  assert (Q : quiescent (after silent openingDone))
    by (repeat split; reflexivity).
  assert (R : queryRounds silent 2 (after silent openingDone)
                (after silent
                   (openingDone ++ Respond query :: queryRun
                    ++ Respond query :: queryRun))).
  { apply queryRounds_S
      with (s1 := after silent (openingDone ++ Respond query :: queryRun))
           (es := queryRun);
      [reflexivity|vm_compute; reflexivity|repeat split; reflexivity|].
    apply queryRounds_S
      with (s1 := after silent
                    (openingDone ++ Respond query :: queryRun
                     ++ Respond query :: queryRun))
           (es := queryRun);
      [reflexivity|vm_compute; reflexivity|repeat split; reflexivity|].
    apply queryRounds_O. }
  split; [exact R|].
  destruct (query_rounds silent 2 _ _ demoOrder1 R Q eq_refl)
    as (A & _ & _ & _ & _ & F).
  split; [apply F; discriminate|exact A].
Defined.

(** X5 on a concrete execution. *)
Lemma reschedule_offer_flow_witness :
  quiescent (after silent openingDone) /\
  selectedOrder (after silent openingDone) = Some demoOrder1 /\
  run silent offerRun
    (handleCustomerResponse silent reschedule (after silent openingDone))
  = Some (after silent offerDone) /\
  callOutcome (after silent offerDone) = Some rescheduled /\
  enabled (PickSlot "Tomorrow, 2PM - 5PM") (after silent offerDone) = true.
Proof.
  assert (Q : quiescent (after silent openingDone))
    by (repeat split; reflexivity).
  assert (R : run silent offerRun
                (handleCustomerResponse silent reschedule
                   (after silent openingDone))
              = Some (after silent offerDone))
    by (vm_compute; reflexivity).
  split; [exact Q|]. split; [reflexivity|]. split; [exact R|].
  destruct (reschedule_offer_flow silent _ _ demoOrder1 offerRun Q eq_refl
              eq_refl R ltac:(repeat split; reflexivity))
    as (_ & _ & A & _ & _ & F).
  split; [exact A|]. apply F. simpl. auto.
Defined.

(** X6 on a concrete execution. *)
Lemma slot_flow_witness :
  quiescent (after silent offerDone) /\
  selectedOrder (after silent offerDone) = Some demoOrder1 /\
  run silent slotRun
    (handleRescheduleSelection "Saturday, 11AM - 1PM" (after silent offerDone))
  = Some (after silent
            (offerDone ++ PickSlot "Saturday, 11AM - 1PM" :: slotRun)) /\
  callState
    (after silent (offerDone ++ PickSlot "Saturday, 11AM - 1PM" :: slotRun))
  = resolved /\
  option_map deliverySlot
    (selectedOrder
       (after silent
          (offerDone ++ PickSlot "Saturday, 11AM - 1PM" :: slotRun)))
  = Some "Saturday, 11AM - 1PM".
Proof.
  assert (Q : quiescent (after silent offerDone))
    by (repeat split; reflexivity).
  assert (R : run silent slotRun
                (handleRescheduleSelection "Saturday, 11AM - 1PM"
                   (after silent offerDone))
              = Some (after silent
                        (offerDone ++ PickSlot "Saturday, 11AM - 1PM"
                         :: slotRun)))
    by (vm_compute; reflexivity).
  split; [exact Q|]. split; [reflexivity|]. split; [exact R|].
  destruct (slot_flow silent _ _ demoOrder1 "Saturday, 11AM - 1PM" slotRun
              Q eq_refl eq_refl R ltac:(repeat split; reflexivity))
    as (_ & A & _ & _ & E & _).
  split; [exact A|]. rewrite E. reflexivity.
Defined.

(** X7 on a concrete execution. *)
Lemma confirm_eventually_witness :
  selectedOrder (init silent) = Some demoOrder1 /\
  eventually silent (handleCustomerResponse silent confirm (init silent))
    (resolvedAs "OD-1001" confirmed st_confirmed).
Proof.
  split; [reflexivity|].
  apply (confirm_eventually silent (init silent) demoOrder1 eq_refl).
Defined.

(** X8 on a concrete execution. *)
Lemma cancel_eventually_witness :
  selectedOrder (after silent openingDone) = Some demoOrder1 /\
  eventually silent
    (handleCustomerResponse silent cancel (after silent openingDone))
    (resolvedAs "OD-1001" cancelled st_cancelled).
Proof.
  split; [reflexivity|].
  apply (cancel_eventually silent (after silent openingDone) demoOrder1
           eq_refl).
Defined.

(** X9 on a concrete execution. *)
Lemma script_result_independent_of_speech_witness :
  run voiced [Elapse 1200; Fire; Elapse 2200; Fire] (after voiced [StartCall])
  = Some (after voiced openingDone) /\
  pendingTimers (after voiced openingDone) = [] /\
  activeUtterance (after voiced openingDone) <> None /\
  map content (conversation (after voiced openingDone)) =
    [ (system, dialText demoOrder1, None);
      (agent, introText voiced demoOrder1, Some false);
      (agent, itemsText voiced demoOrder1, Some true) ].
Proof.
  assert (R : run voiced [Elapse 1200; Fire; Elapse 2200; Fire]
                (after voiced [StartCall])
              = Some (after voiced openingDone))
    by (vm_compute; reflexivity).
  split; [exact R|]. split; [reflexivity|]. split; [vm_compute; discriminate|].
  destruct (script_result_independent_of_speech voiced _ _
              [Elapse 1200; Fire; Elapse 2200; Fire] eq_refl R eq_refl)
    as (A & _).
  exact (f_equal (fun x => fst (fst x)) A).
Defined.

(** X10 on a concrete execution. *)
Lemma final_indicator_witness :
  activeUtterance (after voiced [StartCall]) = None /\
  interrupted (after voiced [StartCall]) = [] /\
  determinate None (fireOrder (pendingTimers (after voiced [StartCall])))
  = true /\
  run voiced [Elapse 1200; Fire; Elapse 2200; Fire; SpeechInterrupted; SpeechEnd]
    (after voiced [StartCall])
  = Some (after voiced voicedOpening) /\
  quiescent (after voiced voicedOpening) /\
  callState (after voiced voicedOpening) = awaiting_response.
Proof.
  assert (R : run voiced
                [Elapse 1200; Fire; Elapse 2200; Fire;
                 SpeechInterrupted; SpeechEnd]
                (after voiced [StartCall])
              = Some (after voiced voicedOpening))
    by (vm_compute; reflexivity).
  assert (Q : quiescent (after voiced voicedOpening))
    by (repeat split; reflexivity).
  split; [reflexivity|]. split; [reflexivity|]. split; [reflexivity|].
  split; [exact R|]. split; [exact Q|].
  exact (final_indicator voiced (after voiced [StartCall])
           (after voiced voicedOpening)
           [Elapse 1200; Fire; Elapse 2200; Fire; SpeechInterrupted; SpeechEnd]
           eq_refl eq_refl eq_refl eq_refl R Q).
Defined.

(** X12 on a concrete execution. *)
Lemma registry_identity_witness :
  reachable silent (after silent (openingDone ++ [Escalate])) /\
  orders (after silent (openingDone ++ [Escalate])) <> initialOrders silent /\
  map identity (orders (after silent (openingDone ++ [Escalate])))
  = map identity (initialOrders silent).
Proof.
  assert (R : reachable silent (after silent (openingDone ++ [Escalate])))
    by (apply after_reachable; vm_compute; discriminate).
  split; [exact R|]. split; [vm_compute; discriminate|].
  apply (registry_identity silent _ R).
Defined.

(** X13 on a concrete execution. *)
Lemma selection_names_an_order_witness :
  reachable silent (after silent [SelectOrder "OD-1002"]) /\
  initialOrders silent <> [] /\
  exists o, selectedOrder (after silent [SelectOrder "OD-1002"]) = Some o /\
            In o (orders (after silent [SelectOrder "OD-1002"])).
Proof.
  assert (R : reachable silent (after silent [SelectOrder "OD-1002"]))
    by (apply after_reachable; vm_compute; discriminate).
  assert (N : initialOrders silent <> []) by discriminate.
  split; [exact R|]. split; [exact N|].
  apply (selection_names_an_order silent _ R N).
Defined.

(** X14 on a concrete execution. *)
Lemma only_selected_order_rewritten_witness :
  reachable silent (after silent openingDone) /\
  step silent Escalate (after silent openingDone)
  = Some (after silent (openingDone ++ [Escalate])) /\
  nth_error (orders (after silent openingDone)) 1 = Some demoOrder2 /\
  selectedOrderId (after silent openingDone) <> Some (id demoOrder2) /\
  nth_error (orders (after silent (openingDone ++ [Escalate]))) 1
  = Some demoOrder2.
Proof.
  assert (R : reachable silent (after silent openingDone))
    by (apply after_reachable; vm_compute; discriminate).
  assert (S : step silent Escalate (after silent openingDone)
              = Some (after silent (openingDone ++ [Escalate])))
    by (vm_compute; reflexivity).
  assert (N : selectedOrderId (after silent openingDone)
              <> Some (id demoOrder2)) by (vm_compute; discriminate).
  split; [exact R|]. split; [exact S|]. split; [reflexivity|].
  split; [exact N|].
  apply (only_selected_order_rewritten silent _ _ Escalate 1 demoOrder2
           R S eq_refl N).
Defined.

(** X15 on a concrete execution. *)
Lemma status_follows_outcome_witness :
  reachable silent (after silent openingDone) /\
  step silent Escalate (after silent openingDone)
  = Some (after silent (openingDone ++ [Escalate])) /\
  orders (after silent (openingDone ++ [Escalate]))
  <> orders (after silent openingDone) /\
  callState (after silent (openingDone ++ [Escalate])) = resolved.
Proof.
  assert (R : reachable silent (after silent openingDone))
    by (apply after_reachable; vm_compute; discriminate).
  assert (S : step silent Escalate (after silent openingDone)
              = Some (after silent (openingDone ++ [Escalate])))
    by (vm_compute; reflexivity).
  assert (N : orders (after silent (openingDone ++ [Escalate]))
              <> orders (after silent openingDone))
    by (vm_compute; discriminate).
  split; [exact R|]. split; [exact S|]. split; [exact N|].
  apply (status_follows_outcome silent _ _ Escalate R S N).
Defined.

(** X16 on a concrete execution. *)
Lemma never_back_to_pending_witness :
  reachable silent (after silent openingDone) /\
  step silent Escalate (after silent openingDone)
  = Some (after silent (openingDone ++ [Escalate])) /\
  nth_error (orders (after silent (openingDone ++ [Escalate]))) 1
  = Some demoOrder2 /\
  status demoOrder2 = st_pending /\
  nth_error (orders (after silent openingDone)) 1 = Some demoOrder2.
Proof.
  assert (R : reachable silent (after silent openingDone))
    by (apply after_reachable; vm_compute; discriminate).
  assert (S : step silent Escalate (after silent openingDone)
              = Some (after silent (openingDone ++ [Escalate])))
    by (vm_compute; reflexivity).
  split; [exact R|]. split; [exact S|]. split; [reflexivity|].
  split; [reflexivity|].
  apply (never_back_to_pending silent _ _ Escalate 1 demoOrder2
           R S eq_refl eq_refl).
Defined.

(** X17 on a concrete execution. *)
Lemma delivery_slot_from_menu_witness :
  reachable silent
    (after silent (offerDone ++ PickSlot "Saturday, 11AM - 1PM" :: slotRun)) /\
  Forall2 slotOk (initialOrders silent)
    (orders
       (after silent
          (offerDone ++ PickSlot "Saturday, 11AM - 1PM" :: slotRun))).
Proof.
  assert (R : reachable silent
                (after silent
                   (offerDone ++ PickSlot "Saturday, 11AM - 1PM" :: slotRun)))
    by (apply after_reachable; vm_compute; discriminate).
  split; [exact R|].
  apply (delivery_slot_from_menu silent _ R).
Defined.

(** X18 on a concrete execution. *)
Lemma select_order_switches_and_resets_witness :
  reachable silent (after silent (openingDone ++ [Escalate])) /\
  callInFlight (after silent (openingDone ++ [Escalate])) = false /\
  selectedOrderId
    (handle silent (SelectOrder "OD-1002")
       (after silent (openingDone ++ [Escalate])))
  = Some "OD-1002" /\
  conversation
    (handle silent (SelectOrder "OD-1002")
       (after silent (openingDone ++ [Escalate])))
  = [].
Proof.
  assert (R : reachable silent (after silent (openingDone ++ [Escalate])))
    by (apply after_reachable; vm_compute; discriminate).
  split; [exact R|]. split; [reflexivity|].
  destruct (select_order_switches_and_resets silent _ "OD-1002" R)
    as [_ H].
  destruct (H eq_refl) as (A & B & _).
  split; [exact A|exact B].
Defined.

(** X19 on a concrete execution. *)
Lemma silent_line_is_spoken_line_ended_witness :
  activeUtterance (init silent) = None /\
  agentLineCallback (withSpeech false silent) "Hello"
    (mkOptions (Some true) None) (init silent) =
  speechEnd
    (agentLineCallback (withSpeech true silent) "Hello"
       (mkOptions (Some true) None) (init silent)).
Proof.
  split; [reflexivity|].
  apply (silent_line_is_spoken_line_ended silent (init silent) "Hello"
           (mkOptions (Some true) None) eq_refl).
Defined.

(** X20 on a concrete execution. *)
Lemma mute_flag_only_toggled_witness :
  run silent [EndCall; StartCall] (after silent [StartCall; ToggleMute])
  = Some (after silent [StartCall; ToggleMute; EndCall; StartCall]) /\
  agentMuted (after silent [StartCall; ToggleMute]) = true /\
  agentMuted (after silent [StartCall; ToggleMute; EndCall; StartCall]) = true.
Proof.
  assert (R : run silent [EndCall; StartCall]
                (after silent [StartCall; ToggleMute])
              = Some (after silent [StartCall; ToggleMute; EndCall; StartCall]))
    by (vm_compute; reflexivity).
  split; [exact R|]. split; [reflexivity|].
  rewrite (mute_flag_only_toggled silent [EndCall; StartCall] _ _ eq_refl R).
  reflexivity.
Defined.

(** X21 on a concrete execution. *)
Lemma muted_line_is_still_spoken_witness :
  isBrowser voiced = true /\
  agentMuted (after voiced [StartCall; ToggleMute; Elapse 1200]) = true /\
  callState (after voiced [StartCall; ToggleMute; Elapse 1200]) = muted /\
  activeUtterance
    (handle voiced Fire (after voiced [StartCall; ToggleMute; Elapse 1200]))
  = Some (mkOptions (Some false) None) /\
  callState
    (handle voiced Fire (after voiced [StartCall; ToggleMute; Elapse 1200]))
  = speaking.
Proof.
  split; [reflexivity|]. split; [reflexivity|]. split; [reflexivity|].
  destruct (muted_line_is_still_spoken voiced
              (after voiced [StartCall; ToggleMute; Elapse 1200])
              (mkTimer 1 1200
                 (AgentLine (introText voiced demoOrder1)
                    (mkOptions (Some false) None)))
              [mkTimer 2 3400
                 (AgentLine (itemsText voiced demoOrder1)
                    (mkOptions (Some true) None))]
              (introText voiced demoOrder1) (mkOptions (Some false) None)
              eq_refl eq_refl ltac:(vm_compute; reflexivity) eq_refl)
    as (A & B & _).
  split; [exact A|exact B].
Defined.

(** ** Unmounting *)

Section Unmount.
Variable P : Platform.

(** X23.  Unmounting from a reachable state cancels every pending timer and
    the utterance being spoken and leaves the React state as it is, so that
    no browser event afterwards appends a line, rewrites an order or sets
    an outcome. *)
Theorem unmount_cancels_pending_work (s : State) :
  reachable P s ->
  pendingTimers (unmountCleanup P s) = [] /\
  timeoutsRef (unmountCleanup P s) = [] /\
  (isBrowser P = true -> activeUtterance (unmountCleanup P s) = None) /\
  ledger (unmountCleanup P s) = ledger s /\
  callState (unmountCleanup P s) = callState s /\
  (forall es s', forallb isEnvEvent es = true ->
                 run P es (unmountCleanup P s) = Some s' ->
                 conversation s' = conversation s /\
                 orders s' = orders s /\ callOutcome s' = callOutcome s).
Proof.
  intros R. apply reachable_wf in R as (T & _).
  apply filter_tracked_nil in T.
  assert (H : pendingTimers (unmountCleanup P s) = [] /\
              timeoutsRef (unmountCleanup P s) = [] /\
              (isBrowser P = true ->
               activeUtterance (unmountCleanup P s) = None) /\
              conversation (unmountCleanup P s) = conversation s /\
              orders (unmountCleanup P s) = orders s /\
              callOutcome (unmountCleanup P s) = callOutcome s /\
              callState (unmountCleanup P s) = callState s).
  { revert T. unfold unmountCleanup.
    destruct s as [os sid cv cs co rs am tr pt nid au it ck].
    destruct (isBrowser P); full_red; [destruct au; full_red|];
      intros ->; repeat split; try reflexivity; discriminate. }
  destruct H as (A & B & C & D & E & F & G).
  split; [exact A|]. split; [exact B|]. split; [exact C|].
  split; [unfold ledger; rewrite D, E, F; reflexivity|]. split; [exact G|].
  intros es s' Hes Hrun.
  destruct (env_run_quiet P es _ s' Hes A Hrun) as (_ & X & Y & Z).
  repeat split; congruence.
Qed.

End Unmount.

(** X23 on a concrete execution. *)
Lemma unmount_cancels_pending_work_witness :
  reachable voiced (after voiced [StartCall; Elapse 1200; Fire]) /\
  pendingTimers (after voiced [StartCall; Elapse 1200; Fire]) <> [] /\
  activeUtterance (after voiced [StartCall; Elapse 1200; Fire]) <> None /\
  pendingTimers
    (unmountCleanup voiced (after voiced [StartCall; Elapse 1200; Fire])) = [] /\
  activeUtterance
    (unmountCleanup voiced (after voiced [StartCall; Elapse 1200; Fire]))
  = None.
Proof.
  assert (R : reachable voiced (after voiced [StartCall; Elapse 1200; Fire]))
    by (apply after_reachable; vm_compute; discriminate).
  split; [exact R|]. split; [vm_compute; discriminate|].
  split; [vm_compute; discriminate|].
  destruct (unmount_cancels_pending_work voiced _ R) as (A & _ & C & _).
  split; [exact A|exact (C eq_refl)].
Defined.

(** * The pace of the call

    Timers are scheduled by starting a call and by the customer responses
    only.  Before the first response of a call, the timers pending are
    those of the opening script, and the state is [awaiting_response] only
    once both have fired. *)

Section Pacing.
Variable P : Platform.








End Pacing.

(** With speech synthesis, a call replayed while the speech callbacks of the
    previous one are outstanding: the stale callback of the second line sets
    [awaiting_response] while the opening script is pending, and its first
    timer moves the state to [speaking]. *)
Example stale_callback_then_timer :
  option_map (fun s => (callState s, List.length (pendingTimers s)))
    (run voiced
       (openingDone ++ [EndCall; StartCall; SpeechInterrupted; SpeechInterrupted])
       (init voiced))
  = Some (awaiting_response, 2%nat) /\
  option_map callState
    (run voiced
       (openingDone ++ [EndCall; StartCall; SpeechInterrupted; SpeechInterrupted;
                        Elapse 1200; Fire])
       (init voiced))
  = Some speaking.
Proof. split; vm_compute; reflexivity. Qed.


(** * Mute toggles and the script

    A toggle leaves everything the script has produced as it is; what it
    changes is the mute flag, the speech queue and the state indicator. *)

Section Muting.
Variable P : Platform.








End Muting.


(** After mute and unmute the page offers the customer responses before
    the agent has said a word; the confirm response then completes the call
    while the opening script is still being delivered. *)
Example unmute_offers_responses_early :
  run silent [StartCall; Respond confirm] (init silent) = None /\
  option_map (fun s => (callState s, callOutcome s,
                        map (fun e => (speaker e, awaitingResponse e))
                            (conversation s)))
    (run silent [StartCall; ToggleMute; ToggleMute; Respond confirm;
                 Elapse 400; Fire; Elapse 800; Fire; Elapse 800; Fire;
                 Elapse 500; Fire]
         (init silent))
  = Some (resolved, Some confirmed,
          [(system, None); (customer, None); (agent, Some false);
           (agent, Some false); (agent, Some false)]).
Proof. split; vm_compute; reflexivity. Qed.

